(** * Chroma-key compositing view: a shallow embedding of [src/App.tsx]

    The development follows the source file top-down:

    - [Shader]   : the GLSL fragment stage ([fragmentShaderSource]) in its two
                   formulations (if/else in [App.tsx], ternary in the two
                   later evolutions of the file);
    - [Host]     : the browser facilities the component talks to, the WebGL
                   command stream and the animation-frame scheduler;
    - [Loop]     : [initWebGL] and the closure created by the second effect
                   of [Video] ([lastFrameTime], [animationFrameId],
                   [applyChromaKey] and the cleanup function);
    - [View]     : the [Video] component itself, with its memo, its two
                   effects and the events that drive it;
    - [Coherence]: how the parts of the component's state hang together;
    - [JS], [Token], [Client], [Chat], [Download] : the code around the
                   view, that is [getDisplayToken], [createConversation],
                   the [App] component with [startVideoCall], the chat of
                   the later evolution and its [handleSubmit];
    - [ShaderFacts], [LoopFacts], [ViewFacts] and the modules after them :
                   their properties.

    Numbers.  The fragment stage is written over an abstract arithmetic of
    GLSL's [float], with three readings: the IEEE 754 formats binary16 and
    binary32 with rounding to nearest, which is what a GPU runs, and the
    real numbers ([R]), which is what the arithmetic approximates.  What is
    proved of the stage says for which reading it holds.  JavaScript numbers
    holding timestamps are rationals ([Q]).

    Effects.  Every function that touches the browser takes the host state
    and returns the new one.  WebGL calls are recorded in a command stream,
    so that what was uploaded, drawn or deleted can be counted.  React is
    modelled by what it does for this component: the memo callback runs
    again when its dependency changed, an effect runs again (after the
    cleanup of its previous run) when its dependencies changed, a state
    change made by an event handler is followed by a render, and unmounting
    runs the pending cleanups once. *)

From Stdlib Require Import List Bool Arith Lia.
From Stdlib Require Import Ascii String.
From Stdlib Require Import Znat QArith Qabs Qreals.
From Stdlib Require Import Reals.
From Stdlib Require Lra Lqa.
From Stdlib Require Floats.SpecFloat.
Import ListNotations.

(* ================================================================== *)
(** ** The fragment stage *)
(* ================================================================== *)

Module Shader.

(** The scalar operations the fragment shader uses.  Keeping them abstract
    lets the comparison of the two formulations hold for every reading of
    GLSL's [float], not only for the exact one. *)
Class GLFloat (F : Type) : Type := {
  f_zero : F;                      (* the literal 0.0 *)
  f_add  : F -> F -> F;
  f_sub  : F -> F -> F;
  f_mul  : F -> F -> F;
  f_sqrt : F -> F;
  f_ltb  : F -> F -> bool          (* the relational operator < *)
}.

Record vec3 (F : Type) : Type := Vec3 { vx : F; vy : F; vz : F }.
Record vec4 (F : Type) : Type := Vec4 { cr : F; cg : F; cb : F; ca : F }.
Arguments Vec3 {F} _ _ _.
Arguments vx {F} _.
Arguments vy {F} _.
Arguments vz {F} _.
Arguments Vec4 {F} _ _ _ _.
Arguments cr {F} _.
Arguments cg {F} _.
Arguments cb {F} _.
Arguments ca {F} _.

Section Generic.
Context {F : Type} `{GLFloat F}.

(** The swizzle [color.rgb]. *)
Definition rgb (c : vec4 F) : vec3 F := Vec3 (cr c) (cg c) (cb c).

(** Component-wise [vec3 - vec3]. *)
Definition vsub (a b : vec3 F) : vec3 F :=
  Vec3 (f_sub (vx a) (vx b)) (f_sub (vy a) (vy b)) (f_sub (vz a) (vz b)).

Definition dot (a b : vec3 F) : F :=
  f_add (f_add (f_mul (vx a) (vx b)) (f_mul (vy a) (vy b)))
        (f_mul (vz a) (vz b)).

(** GLSL's built-in [length]. *)
Definition length (v : vec3 F) : F := f_sqrt (dot v v).

(** The constructor [vec4(x)] with one scalar argument. *)
Definition vec4_splat (s : F) : vec4 F := Vec4 s s s s.

(** [main] of [fragmentShaderSource] in [App.tsx]; [color] is the texel
    [texture2D(u_image, v_texCoord)], the result is [gl_FragColor]. *)
Definition fragment_main (u_keyColor : vec3 F) (u_threshold : F)
           (color : vec4 F) : vec4 F :=
  let diff := length (vsub (rgb color) u_keyColor) in
  if f_ltb diff u_threshold
  then Vec4 f_zero f_zero f_zero f_zero
  else color.

(** [main] of [fragmentShaderSource] in the two later evolutions. *)
Definition fragment_main_ternary (u_keyColor : vec3 F) (u_threshold : F)
           (color : vec4 F) : vec4 F :=
  let diff := length (vsub (rgb color) u_keyColor) in
  if f_ltb diff u_threshold then vec4_splat f_zero else color.

End Generic.

(** The exact reading of [float]: the arithmetic of the real numbers, which
    the shader's own arithmetic approximates.  What is proved through this
    instance describes the stage up to rounding; the rounded readings are
    [GLFloat_ieee] below. *)
#[export] Instance GLFloat_R : GLFloat R := {
  f_zero := 0%R;
  f_add  := Rplus;
  f_sub  := Rminus;
  f_mul  := Rmult;
  f_sqrt := sqrt;
  f_ltb  := fun a b => if Rlt_dec a b then true else false
}.

(** The uniforms bound by [applyChromaKey] before each draw. *)
Definition keyColor : vec3 R := Vec3 (3 / 255)%R (255 / 255)%R (156 / 255)%R.
Definition threshold : R := (3 / 10)%R.

(** Euclidean distance in RGB space, written out. *)
Definition rgb_distance (c : vec4 R) (k : vec3 R) : R :=
  sqrt ((cr c - vx k) * (cr c - vx k) + (cg c - vy k) * (cg c - vy k)
        + (cb c - vz k) * (cb c - vz k))%R.

(** *** A decision procedure over the rationals

    On rational inputs the test [length d < t] is decided without square
    roots: it holds exactly when [t] is positive and the squared distance
    is below [t * t]. *)
Definition vec3Q_to_R (v : vec3 Q) : vec3 R :=
  Vec3 (Q2R (vx v)) (Q2R (vy v)) (Q2R (vz v)).
Definition vec4Q_to_R (c : vec4 Q) : vec4 R :=
  Vec4 (Q2R (cr c)) (Q2R (cg c)) (Q2R (cb c)) (Q2R (ca c)).

Definition dist2Q (c : vec4 Q) (k : vec3 Q) : Q :=
  ((cr c - vx k) * (cr c - vx k) + (cg c - vy k) * (cg c - vy k)
   + (cb c - vz k) * (cb c - vz k))%Q.

Definition keyedQ (k : vec3 Q) (t : Q) (c : vec4 Q) : bool :=
  match Qlt_le_dec 0 t with
  | left _ => if Qlt_le_dec (dist2Q c k) (t * t) then true else false
  | right _ => false
  end.

Definition fragment_mainQ (k : vec3 Q) (t : Q) (c : vec4 Q) : vec4 Q :=
  if keyedQ k t c then Vec4 0%Q 0%Q 0%Q 0%Q else c.

Definition keyColorQ : vec3 Q := Vec3 (3 # 255)%Q (255 # 255)%Q (156 # 255)%Q.
Definition thresholdQ : Q := (3 # 10)%Q.

(** *** Rounded arithmetic

    [precision mediump float] leaves the format to the implementation, from
    sixteen bits up.  The IEEE 754 binary formats, with rounding to nearest
    even, are taken from the standard library's executable specification:
    [prec] is the number of significand bits and [emax] the exponent bound,
    11 and 16 for binary16, 24 and 128 for binary32. *)
Definition ieee : Type := SpecFloat.spec_float.

Definition GLFloat_ieee (prec emax : Z) : GLFloat ieee := {|
  f_zero := SpecFloat.S754_zero false;
  f_add  := SpecFloat.SFadd prec emax;
  f_sub  := SpecFloat.SFsub prec emax;
  f_mul  := SpecFloat.SFmul prec emax;
  f_sqrt := SpecFloat.SFsqrt prec emax;
  f_ltb  := SpecFloat.SFltb
|}.

Definition binary16 : GLFloat ieee := GLFloat_ieee 11 16.
Definition binary32 : GLFloat ieee := GLFloat_ieee 24 128.

(** The quotient [n / d] of two integers, rounded to the format: a texel
    byte [n] is sampled as [n / 255], and [applyChromaKey] sets the uniforms
    to [3 / 255], [255 / 255], [156 / 255] and [0.3]. *)
Definition ieee_of_Z (prec emax : Z) (n : Z) : ieee :=
  SpecFloat.binary_normalize prec emax n 0 false.

Definition ieee_ratio (prec emax : Z) (n d : Z) : ieee :=
  SpecFloat.SFdiv prec emax (ieee_of_Z prec emax n) (ieee_of_Z prec emax d).

(** The rational number a finite float stands for. *)
Definition ieee_to_Q (x : ieee) : Q :=
  match x with
  | SpecFloat.S754_finite s m e =>
      ((if s then -1 else 1) * inject_Z (Zpos m) * Qpower 2 e)%Q
  | _ => 0%Q
  end.

Definition vec3_ieee_to_Q (v : vec3 ieee) : vec3 Q :=
  Vec3 (ieee_to_Q (vx v)) (ieee_to_Q (vy v)) (ieee_to_Q (vz v)).
Definition vec4_ieee_to_Q (c : vec4 ieee) : vec4 Q :=
  Vec4 (ieee_to_Q (cr c)) (ieee_to_Q (cg c)) (ieee_to_Q (cb c))
       (ieee_to_Q (ca c)).

(** The uniforms and an opaque texel of bytes [r], [g], [b], as the stage
    holds them in a given format. *)
Definition keyColor_ieee (prec emax : Z) : vec3 ieee :=
  Vec3 (ieee_ratio prec emax 3 255) (ieee_ratio prec emax 255 255)
       (ieee_ratio prec emax 156 255).
Definition threshold_ieee (prec emax : Z) : ieee := ieee_ratio prec emax 3 10.
Definition texel_ieee (prec emax : Z) (r g b : Z) : vec4 ieee :=
  Vec4 (ieee_ratio prec emax r 255) (ieee_ratio prec emax g 255)
       (ieee_ratio prec emax b 255) (ieee_ratio prec emax 255 255).

End Shader.

(* ================================================================== *)
(** ** The host: video element, WebGL command stream, scheduler *)
(* ================================================================== *)

Module Host.

(** A decoded video image, identified by its number. *)
Definition Frame : Type := nat.

(** What [applyChromaKey] and [checkVideoReady] read from the
    [HTMLVideoElement] at the moment they run. *)
Record VideoElement : Type := mkVideo {
  readyState   : nat;
  videoWidth   : nat;
  videoHeight  : nat;
  currentFrame : Frame
}.

Definition HAVE_CURRENT_DATA : nat := 2.
Definition HAVE_ENOUGH_DATA  : nat := 4.

Inductive ShaderStage : Type := VERTEX_SHADER | FRAGMENT_SHADER.
Inductive ShaderName : Type :=
  a_position | a_texCoord | u_image | u_keyColor | u_threshold.
Inductive TexParam : Type :=
  TEXTURE_WRAP_S | TEXTURE_WRAP_T | TEXTURE_MIN_FILTER | TEXTURE_MAG_FILTER.
Inductive TexValue : Type := CLAMP_TO_EDGE | LINEAR.

(** The calls the component makes on its [WebGLRenderingContext]. *)
Inductive GLCall : Type :=
| CreateShader (stage : ShaderStage)
| ShaderSource (stage : ShaderStage)
| CompileShader (stage : ShaderStage)
| CreateProgram (obj : nat)
| AttachShader (stage : ShaderStage)
| LinkProgram
| UseProgram
| CreateBuffer (obj : nat)
| BindBuffer (obj : nat)
| BufferData (data : list Z)
| GetAttribLocation (name : ShaderName)
| EnableVertexAttribArray (name : ShaderName)
| VertexAttribPointer (name : ShaderName) (size : nat)
| GetUniformLocation (name : ShaderName)
| CreateTexture (obj : nat)
| BindTexture (obj : option nat)
| TexParameteri (pname : TexParam) (param : TexValue)
| Viewport (x y w h : nat)
| TexImage2D (image : Frame)
| Uniform1i (loc : option ShaderName) (v : Z)
| Uniform3f (loc : option ShaderName) (v0 v1 v2 : Q)
| Uniform1f (loc : option ShaderName) (v : Q)
| DrawArrays (first count : nat)
| DeleteProgram (obj : option nat)
| DeleteTexture (obj : option nat).

(** The state of everything outside the component: the command stream
    received by the GPU (newest call first), the image held by the
    texture, which objects were flagged for deletion, the backing size of
    the canvas and the pending animation-frame callbacks. *)
Record t : Type := mk {
  glCalls        : list GLCall;
  textureImage   : option Frame;
  programDeleted : bool;
  textureDeleted : bool;
  glNextObject   : nat;
  canvasWidth    : nat;
  canvasHeight   : nat;
  rafNext        : nat;
  rafPending     : list nat
}.

Definition initial : t := mk [] None false false 1 300 150 1 [].

(** Issue one call that changes nothing but the command stream. *)
Definition call (c : GLCall) (h : t) : t :=
  mk (c :: glCalls h) (textureImage h) (programDeleted h) (textureDeleted h)
     (glNextObject h) (canvasWidth h) (canvasHeight h)
     (rafNext h) (rafPending h).

Definition calls (cs : list GLCall) (h : t) : t :=
  fold_left (fun h' c => call c h') cs h.

(** [gl.createProgram()], [gl.createBuffer()], [gl.createTexture()]:
    a fresh object. *)
Definition createObject (mkCall : nat -> GLCall) (h : t) : nat * t :=
  let o := glNextObject h in
  (o, mk (mkCall o :: glCalls h) (textureImage h) (programDeleted h)
         (textureDeleted h) (S o) (canvasWidth h) (canvasHeight h)
         (rafNext h) (rafPending h)).

(** [canvas.width = w; canvas.height = h']. *)
Definition resizeCanvas (w h' : nat) (h : t) : t :=
  mk (glCalls h) (textureImage h) (programDeleted h) (textureDeleted h)
     (glNextObject h) w h' (rafNext h) (rafPending h).

(** [gl.texImage2D(..., video)]: the whole image is replaced. *)
Definition texImage2D (img : Frame) (h : t) : t :=
  mk (TexImage2D img :: glCalls h) (Some img) (programDeleted h)
     (textureDeleted h) (glNextObject h) (canvasWidth h) (canvasHeight h)
     (rafNext h) (rafPending h).

(** [gl.deleteProgram(p)] and [gl.deleteTexture(t)]: the object is flagged
    for deletion; on an object already flagged only the call is recorded. *)
Definition deleteProgram (p : option nat) (h : t) : t :=
  mk (DeleteProgram p :: glCalls h) (textureImage h) true (textureDeleted h)
     (glNextObject h) (canvasWidth h) (canvasHeight h)
     (rafNext h) (rafPending h).

Definition deleteTexture (x : option nat) (h : t) : t :=
  mk (DeleteTexture x :: glCalls h) None (programDeleted h) true
     (glNextObject h) (canvasWidth h) (canvasHeight h)
     (rafNext h) (rafPending h).

(** [requestAnimationFrame(cb)]: a fresh handle, the callback is pending. *)
Definition requestAnimationFrame (h : t) : nat * t :=
  let id := rafNext h in
  (id, mk (glCalls h) (textureImage h) (programDeleted h) (textureDeleted h)
          (glNextObject h) (canvasWidth h) (canvasHeight h)
          (S id) (rafPending h ++ [id])).

(** [cancelAnimationFrame(id)]; an unknown or undefined handle is ignored. *)
Definition cancelAnimationFrame (id : option nat) (h : t) : t :=
  match id with
  | None => h
  | Some i =>
      mk (glCalls h) (textureImage h) (programDeleted h) (textureDeleted h)
         (glNextObject h) (canvasWidth h) (canvasHeight h)
         (rafNext h) (filter (fun j => negb (Nat.eqb j i)) (rafPending h))
  end.

(** The callbacks taken by the browser at the start of a frame. *)
Definition takePending (h : t) : list nat * t :=
  (rafPending h,
   mk (glCalls h) (textureImage h) (programDeleted h) (textureDeleted h)
      (glNextObject h) (canvasWidth h) (canvasHeight h) (rafNext h) []).

Definition isDraw (c : GLCall) : bool :=
  match c with DrawArrays _ _ => true | _ => false end.
Definition isUpload (c : GLCall) : bool :=
  match c with TexImage2D _ => true | _ => false end.
Definition isDeleteProgram (c : GLCall) : bool :=
  match c with DeleteProgram _ => true | _ => false end.
Definition isDeleteTexture (c : GLCall) : bool :=
  match c with DeleteTexture _ => true | _ => false end.

Definition countCalls (p : GLCall -> bool) (h : t) : nat :=
  List.length (filter p (glCalls h)).

Definition drawCalls (h : t) : nat := countCalls isDraw h.
Definition uploads (h : t) : nat := countCalls isUpload h.
Definition disposals (h : t) : nat := countCalls isDeleteProgram h.
Definition textureDisposals (h : t) : nat := countCalls isDeleteTexture h.

End Host.

(* ================================================================== *)
(** ** [initWebGL] and the render loop *)
(* ================================================================== *)

Module Loop.
Import Host.

(** The object returned by [initWebGL]. *)
Record WebGLContext : Type := mkContext {
  program           : option nat;
  texture           : option nat;
  imageLocation     : option ShaderName;
  keyColorLocation  : option ShaderName;
  thresholdLocation : option ShaderName
}.

(** [initWebGL(gl)]: both stages are compiled, the program is linked and
    made current, the two quad buffers are filled and bound to their
    attributes, the uniform locations are looked up and one texture is
    created with clamping and linear filtering.  The rendering context is
    taken to be live, so that [createProgram], [createBuffer] and
    [createTexture] hand out objects; on a lost context they return null,
    which this function does not produce. *)
Definition initWebGL (h : Host.t) : WebGLContext * Host.t :=
  let h := calls [CreateShader VERTEX_SHADER; ShaderSource VERTEX_SHADER;
                  CompileShader VERTEX_SHADER] h in
  let h := calls [CreateShader FRAGMENT_SHADER; ShaderSource FRAGMENT_SHADER;
                  CompileShader FRAGMENT_SHADER] h in
  let (prog, h) := createObject CreateProgram h in
  let h := calls [AttachShader VERTEX_SHADER; AttachShader FRAGMENT_SHADER;
                  LinkProgram; UseProgram] h in
  let (positionBuffer, h) := createObject CreateBuffer h in
  let h := calls [BindBuffer positionBuffer;
                  BufferData [-1; -1; 1; -1; -1; 1; 1; 1]%Z] h in
  let (texCoordBuffer, h) := createObject CreateBuffer h in
  let h := calls [BindBuffer texCoordBuffer;
                  BufferData [0; 0; 1; 0; 0; 1; 1; 1]%Z] h in
  let h := calls [GetAttribLocation a_position;
                  GetAttribLocation a_texCoord] h in
  let h := calls [EnableVertexAttribArray a_position;
                  BindBuffer positionBuffer;
                  VertexAttribPointer a_position 2] h in
  let h := calls [EnableVertexAttribArray a_texCoord;
                  BindBuffer texCoordBuffer;
                  VertexAttribPointer a_texCoord 2] h in
  let h := calls [GetUniformLocation u_image; GetUniformLocation u_keyColor;
                  GetUniformLocation u_threshold] h in
  let (tex, h) := createObject CreateTexture h in
  let h := calls [BindTexture (Some tex);
                  TexParameteri TEXTURE_WRAP_S CLAMP_TO_EDGE;
                  TexParameteri TEXTURE_WRAP_T CLAMP_TO_EDGE;
                  TexParameteri TEXTURE_MIN_FILTER LINEAR;
                  TexParameteri TEXTURE_MAG_FILTER LINEAR] h in
  (mkContext (Some prog) (Some tex)
             (Some u_image) (Some u_keyColor) (Some u_threshold), h).

(** The variables closed over by [applyChromaKey] and by the cleanup of the
    second effect: the three references read when the effect ran, the
    resource context, and the two mutable locals. *)
Record t : Type := mk {
  video            : bool;          (* videoRef.current is not null *)
  canvas           : bool;          (* canvasRef.current is not null *)
  gl               : bool;          (* glRef.current is not null *)
  context          : WebGLContext;
  lastFrameTime    : Q;
  animationFrameId : option nat
}.

Definition targetFPS : Q := 30.
Definition frameInterval : Q := 1000 / targetFPS.

Definition setLastFrameTime (now : Q) (l : t) : t :=
  mk (video l) (canvas l) (gl l) (context l) now (animationFrameId l).

Definition setAnimationFrameId (id : nat) (l : t) : t :=
  mk (video l) (canvas l) (gl l) (context l) (lastFrameTime l) (Some id).

(** [animationFrameId = requestAnimationFrame(applyChromaKey)]. *)
Definition reschedule (s : t * Host.t) : t * Host.t :=
  let (id, h) := requestAnimationFrame (snd s) in
  (setAnimationFrameId id (fst s), h).

(** The guarded block of [applyChromaKey]: resize, upload, bind the
    uniforms, draw. *)
Definition uploadAndDraw (l : t) (v : VideoElement) (h : Host.t) : Host.t :=
  let h := resizeCanvas (videoWidth v) (videoHeight v) h in
  let h := call (Viewport 0 0 (canvasWidth h) (canvasHeight h)) h in
  let h := call (BindTexture (texture (context l))) h in
  let h := texImage2D (currentFrame v) h in
  let h := call (Uniform1i (imageLocation (context l)) 0) h in
  let h := call (Uniform3f (keyColorLocation (context l))
                           (3 / 255) (255 / 255) (156 / 255)) h in
  let h := call (Uniform1f (thresholdLocation (context l)) (3 / 10)) h in
  call (DrawArrays 0 4) h.

(** The test [video && canvas && gl &&
    video.readyState === video.HAVE_ENOUGH_DATA]. *)
Definition frameAvailable (l : t) (v : VideoElement) : bool :=
  video l && canvas l && gl l && Nat.eqb (readyState v) HAVE_ENOUGH_DATA.

(** [applyChromaKey(currentTime)], run against the video element as it is
    at that moment. *)
Definition applyChromaKey (currentTime : Q) (v : VideoElement)
           (s : t * Host.t) : t * Host.t :=
  let (l, h) := s in
  if Qlt_le_dec (currentTime - lastFrameTime l) frameInterval then
    reschedule (l, h)
  else
    let l := setLastFrameTime currentTime l in
    let h := if frameAvailable l v then uploadAndDraw l v h else h in
    reschedule (l, h).

(** The body of the second effect after its guard: the locals are
    initialised and [applyChromaKey(0)] is called. *)
Definition start (hasVideo hasCanvas hasGl : bool) (ctx : WebGLContext)
           (v : VideoElement) (h : Host.t) : t * Host.t :=
  applyChromaKey 0 v (mk hasVideo hasCanvas hasGl ctx 0 None, h).

(** The function returned by the second effect. *)
Definition cleanup (s : t * Host.t) : t * Host.t :=
  let (l, h) := s in
  let h := cancelAnimationFrame (animationFrameId l) h in
  let h :=
    match gl l, program (context l), texture (context l) with
    | true, Some p, Some x => deleteTexture (Some x) (deleteProgram (Some p) h)
    | _, _, _ => h
    end in
  (l, h).

Definition cancel : t * Host.t -> t * Host.t := cleanup.

(** One display refresh: the browser takes the pending callbacks and runs
    each of them with the frame's timestamp. *)
Definition animationFrame (now : Q) (v : VideoElement)
           (s : t * Host.t) : t * Host.t :=
  let (ids, h) := takePending (snd s) in
  fold_left (fun s' _ => applyChromaKey now v s') ids (fst s, h).

(** A scheduler tick: its timestamp and the video element at that
    moment. *)
Definition Tick : Type := (Q * VideoElement)%type.

Definition tick (s : t * Host.t) (k : Tick) : t * Host.t :=
  animationFrame (fst k) (snd k) s.

Definition run (s : t * Host.t) (ks : list Tick) : t * Host.t :=
  fold_left tick ks s.

(** Whether a tick uploaded a frame and drew it, read off the command
    stream before and after. *)
Definition drewAt (s : t * Host.t) (k : Tick) : bool :=
  Nat.ltb (drawCalls (snd s)) (drawCalls (snd (tick s k)))
  && Nat.ltb (uploads (snd s)) (uploads (snd (tick s k))).

(** For each tick of a run, whether it drew. *)
Fixpoint draws (s : t * Host.t) (ks : list Tick) : list bool :=
  match ks with
  | [] => []
  | k :: ks' => drewAt s k :: draws (tick s k) ks'
  end.

(** How many ticks of a run drew. *)
Definition drawing (s : t * Host.t) (ks : list Tick) : nat :=
  List.length (filter (fun b : bool => b) (draws s ks)).

(** The timestamps of a run are pairwise spaced less than [d] apart. *)
Fixpoint spacedBelow (d : Q) (ks : list Tick) : Prop :=
  match ks with
  | [] => True
  | k :: ks' =>
      Forall (fun k' => Qabs (fst k' - fst k) < d) ks' /\ spacedBelow d ks'
  end.

(** [n] calls of the cancel handle. *)
Fixpoint cancelTimes (n : nat) (s : t * Host.t) : t * Host.t :=
  match n with
  | O => s
  | S n' => cancelTimes n' (cancel s)
  end.

(** *** Vocabulary for the properties of the loop *)

(** The part of the state a rate-skipped call leaves alone: the whole
    closure but the pending handle, and the whole GPU and canvas. *)
Definition quiet (s s' : t * Host.t) : Prop :=
  video (fst s') = video (fst s)
  /\ canvas (fst s') = canvas (fst s)
  /\ gl (fst s') = gl (fst s)
  /\ context (fst s') = context (fst s)
  /\ lastFrameTime (fst s') = lastFrameTime (fst s)
  /\ glCalls (snd s') = glCalls (snd s)
  /\ textureImage (snd s') = textureImage (snd s)
  /\ programDeleted (snd s') = programDeleted (snd s)
  /\ textureDeleted (snd s') = textureDeleted (snd s)
  /\ canvasWidth (snd s') = canvasWidth (snd s)
  /\ canvasHeight (snd s') = canvasHeight (snd s).

(** What an accepted call leaves behind. *)
Definition accepted (now : Q) (v : VideoElement) (s s' : t * Host.t)
  : Prop :=
  lastFrameTime (fst s') = now
  /\ video (fst s') = video (fst s)
  /\ canvas (fst s') = canvas (fst s)
  /\ gl (fst s') = gl (fst s)
  /\ context (fst s') = context (fst s)
  /\ (if frameAvailable (fst s) v
      then drawCalls (snd s') = S (drawCalls (snd s))
           /\ uploads (snd s') = S (uploads (snd s))
           /\ textureImage (snd s') = Some (currentFrame v)
      else glCalls (snd s') = glCalls (snd s)
           /\ textureImage (snd s') = textureImage (snd s)).

(** The references and the context captured by the closure never change. *)
Definition sameClosure (s s' : t * Host.t) : Prop :=
  video (fst s') = video (fst s) /\ canvas (fst s') = canvas (fst s)
  /\ gl (fst s') = gl (fst s) /\ context (fst s') = context (fst s).

(** The loop's resources are there to be released. *)
Definition disposable (l : t) : Prop :=
  gl l = true /\ program (context l) <> None /\ texture (context l) <> None.

(** The callbacks run by one display refresh. *)
Definition callbacks (now : Q) (v : VideoElement) (ids : list nat)
           (s : t * Host.t) : t * Host.t :=
  fold_left (fun s' _ => applyChromaKey now v s') ids s.

(** A started loop has exactly one callback pending, the one whose handle
    it holds. *)
Definition scheduled (s : t * Host.t) : Prop :=
  exists id, rafPending (snd s) = [id]
             /\ animationFrameId (fst s) = Some id.

(** The scenario of the reference behaviour: a context initialised on a
    fresh host, a video element with a fully decoded frame, and the loop as
    the effect starts it. *)
Definition scenarioContext : WebGLContext := fst (initWebGL Host.initial).
Definition scenarioHost : Host.t := snd (initWebGL Host.initial).
Definition fullFrame (n : nat) : VideoElement :=
  mkVideo HAVE_ENOUGH_DATA 640 480 n.
Definition partialFrame (n : nat) : VideoElement :=
  mkVideo HAVE_CURRENT_DATA 640 480 n.
Definition startedLoop : t * Host.t :=
  start true true true scenarioContext (fullFrame 0) scenarioHost.

End Loop.

(* ================================================================== *)
(** ** The [Video] component *)
(* ================================================================== *)

Module View.
Import Host.

(** The display surface: whether [getContext("webgl", ...)] yields a
    rendering context on it. *)
Record Canvas : Type := mkCanvas { supportsWebGL : bool }.

(** What [Video] returns: the hidden [DailyVideo] and the canvas laid over
    the wrapping [div]. *)
Inductive Element : Type :=
| DailyVideo (displayNone : bool)
| CanvasElement.

(** The children of the wrapping [div]. *)
Definition Markup : Type := list Element.

Record t : Type := mk {
  mounted         : bool;
  canvasRef       : option Canvas;              (* canvasRef.current *)
  videoRef        : bool;                       (* videoRef.current is set *)
  glRef           : bool;                       (* glRef.current is set *)
  isVideoReady    : bool;
  memoDeps        : option Canvas;              (* deps of the last useMemo *)
  webGLContext    : option Loop.WebGLContext;
  canplayListener : bool;                       (* checkVideoReady listens *)
  effectDeps      : bool * option Loop.WebGLContext;
  loop            : option Loop.t;              (* effect with a cleanup *)
  host            : Host.t
}.

Definition sameCanvas (a b : option Canvas) : bool :=
  match a, b with
  | None, None => true
  | Some x, Some y => Bool.eqb (supportsWebGL x) (supportsWebGL y)
  | _, _ => false
  end.

(** Identity of the memoised object: two results of [initWebGL] never
    share their program. *)
Definition sameContext (a b : option Loop.WebGLContext) : bool :=
  match a, b with
  | None, None => true
  | Some x, Some y =>
      match Loop.program x, Loop.program y with
      | Some p, Some q => Nat.eqb p q
      | None, None => true
      | _, _ => false
      end
  | _, _ => false
  end.

(** The callback given to [useMemo]. *)
Definition acquire (ref : option Canvas) (hasGl : bool) (h : Host.t)
  : option Loop.WebGLContext * bool * Host.t :=
  match ref with
  | Some c =>
      if supportsWebGL c
      then let (ctx, h') := Loop.initWebGL h in (Some ctx, true, h')
      else (None, hasGl, h)
  | None => (None, hasGl, h)
  end.

(** The markup returned by every render of [Video]. *)
Definition output (s : t) : Markup :=
  [DailyVideo true; CanvasElement].

(** The first render and its commit.  The memo runs while
    [canvasRef.current] is still null; the references are attached; the
    first effect registers [checkVideoReady]; the second returns at its
    guard. *)
Definition mount (c : Canvas) (hasVideo : bool) (h : Host.t) : t :=
  let '(ctx, hasGl, h') := acquire None false h in
  mk true (Some c) hasVideo hasGl false None ctx hasVideo (false, ctx)
     None h'.

(** The second effect, run because its dependencies changed: the cleanup
    of its previous run first, then its body. *)
Definition runEffect (ready : bool) (ctx : option Loop.WebGLContext)
           (s : t) (hasGl : bool) (v : VideoElement) (h : Host.t)
  : option Loop.t * Host.t :=
  let h := match loop s with
           | Some l => snd (Loop.cleanup (l, h))
           | None => h
           end in
  match ready, ctx with
  | true, Some c =>
      let (l, h') :=
        Loop.start (videoRef s)
                   (match canvasRef s with Some _ => true | None => false end)
                   hasGl c v h in
      (Some l, h')
  | _, _ => (None, h)
  end.

(** [useMemo(..., [canvasRef.current])]: the callback runs again only when
    the dependency differs from the one of the previous render. *)
Definition useMemoContext (s : t)
  : option Loop.WebGLContext * bool * Host.t :=
  if sameCanvas (memoDeps s) (canvasRef s)
  then (webGLContext s, glRef s, host s)
  else acquire (canvasRef s) (glRef s) (host s).

(** Whether the dependencies [isVideoReady, webGLContext] of the second
    effect are those of its previous run. *)
Definition sameDeps (s : t) (ctx : option Loop.WebGLContext) : bool :=
  Bool.eqb (fst (effectDeps s)) (isVideoReady s)
  && sameContext (snd (effectDeps s)) ctx.

(** A render of the mounted component followed by its effects. *)
Definition render (v : VideoElement) (s : t) : t :=
  if negb (mounted s) then s else
  let '(ctx, hasGl, h) := useMemoContext s in
  if sameDeps s ctx
  then mk (mounted s) (canvasRef s) (videoRef s) hasGl (isVideoReady s)
          (canvasRef s) ctx (canplayListener s) (effectDeps s) (loop s) h
  else
    let (l, h') := runEffect (isVideoReady s) ctx s hasGl v h in
    mk (mounted s) (canvasRef s) (videoRef s) hasGl (isVideoReady s)
       (canvasRef s) ctx (canplayListener s) (isVideoReady s, ctx) l h'.

(** [setIsVideoReady(true)]. *)
Definition setIsVideoReady (s : t) : t :=
  mk (mounted s) (canvasRef s) (videoRef s) (glRef s) true
     (memoDeps s) (webGLContext s) (canplayListener s)
     (effectDeps s) (loop s) (host s).

Definition removeListener (s : t) : t :=
  mk (mounted s) (canvasRef s) (videoRef s) (glRef s) (isVideoReady s)
     (memoDeps s) (webGLContext s) false (effectDeps s) (loop s) (host s).

(** [checkVideoReady]. *)
Definition checkVideoReady (v : VideoElement) (s : t) : t :=
  if Nat.leb 2 (readyState v)
  then removeListener (setIsVideoReady s)
  else s.

(** The listener runs; when it changed the state the component renders
    again. *)
Definition dispatchCanplay (v : VideoElement) (s : t) : t :=
  let s' := checkVideoReady v s in
  if Bool.eqb (isVideoReady s) (isVideoReady s') then s' else render v s'.

(** The events the component reacts to. *)
Inductive Event : Type :=
| Canplay (v : VideoElement)                  (* the video fires "canplay" *)
| Render (v : VideoElement)                   (* the parent renders again *)
| AnimationFrame (now : Q) (v : VideoElement) (* a display refresh *)
| Unmount.

Definition step (s : t) (e : Event) : t :=
  match e with
  | Canplay v => if canplayListener s then dispatchCanplay v s else s
  | Render v => render v s
  | AnimationFrame now v =>
      match loop s with
      | Some l =>
          let (l', h') := Loop.animationFrame now v (l, host s) in
          mk (mounted s) (canvasRef s) (videoRef s) (glRef s)
             (isVideoReady s) (memoDeps s) (webGLContext s)
             (canplayListener s) (effectDeps s) (Some l') h'
      | None => s
      end
  | Unmount =>
      if negb (mounted s) then s else
      let h := match loop s with
               | Some l => snd (Loop.cleanup (l, host s))
               | None => host s
               end in
      mk false None false (glRef s) (isVideoReady s) (memoDeps s)
         (webGLContext s) false (effectDeps s) None h
  end.

Definition runEvents (s : t) (es : list Event) : t := fold_left step es s.

(** The number of NotReady-to-Ready transitions along a run. *)
Fixpoint transitions (s : t) (es : list Event) : nat :=
  match es with
  | [] => 0
  | e :: es' =>
      (if negb (isVideoReady s) && isVideoReady (step s e) then 1 else 0)
      + transitions (step s e) es'
  end.

(** Whether a run of events carries, before any unmount, a "canplay"
    signal of a video at readiness level 2 or above. *)
Fixpoint signalled (es : list Event) : bool :=
  match es with
  | [] => false
  | Canplay v :: es' => Nat.leb 2 (readyState v) || signalled es'
  | Unmount :: _ => false
  | _ :: es' => signalled es'
  end.

(** *** Vocabulary for the properties of the component *)

(** Nothing was uploaded or drawn, and no callback was requested, between
    two states of the host. *)
Definition untouched (h h' : Host.t) : Prop :=
  drawCalls h' = drawCalls h /\ uploads h' = uploads h
  /\ rafNext h' = rafNext h /\ rafPending h' = rafPending h.

(** No frame was uploaded or drawn between two states of the host. *)
Definition nothingDrawn (h h' : Host.t) : Prop :=
  drawCalls h' = drawCalls h /\ uploads h' = uploads h.

(** What holds of the component in every state it reaches from a mount on
    host [h0]. *)
Definition invariant (h0 : Host.t) (s : t) : Prop :=
  (isVideoReady s = false ->
   loop s = None /\ untouched h0 (host s)
   /\ canplayListener s = mounted s && videoRef s)
  /\ (isVideoReady s = true -> canplayListener s = false)
  /\ (mounted s = false -> loop s = None).

(** What holds in every state reached on a surface without WebGL, mounted
    on host [h0]. *)
Definition contextless (h0 : Host.t) (s : t) : Prop :=
  webGLContext s = None /\ loop s = None /\ host s = h0
  /\ (canvasRef s = Some (mkCanvas false) \/ canvasRef s = None).

End View.

(* ================================================================== *)
(** ** How the parts of the component's state hang together *)
(* ================================================================== *)

Module Coherence.
Import Host View.

Definition isCreateProgram (c : GLCall) : bool :=
  match c with CreateProgram _ => true | _ => false end.

(** How many programs were created, that is, how often [initWebGL] ran. *)
Definition creations (h : Host.t) : nat := countCalls isCreateProgram h.

(** The program and the texture were each deleted [n] times since [h0]. *)
Definition released (h0 h : Host.t) (n : nat) : Prop :=
  disposals h = (disposals h0 + n)%nat
  /\ textureDisposals h = (textureDisposals h0 + n)%nat.

(** The memo holds a context with its program and its texture, and
    [glRef] is set. *)
Definition usable (s : View.t) : Prop :=
  exists ctx, webGLContext s = Some ctx
              /\ Loop.program ctx <> None /\ Loop.texture ctx <> None
              /\ glRef s = true.

Definition hasContext (s : View.t) : bool :=
  match webGLContext s with Some _ => true | None => false end.

(** What holds of the component, mounted on canvas [c] and host [h0], at
    every point, also inside an event handler that has changed the state
    but not yet rendered. *)
Record settled (c : Canvas) (h0 : Host.t) (s : View.t) : Prop := {
  st_canvas :
    mounted s = true -> canvasRef s = Some c;
  st_memo_none :
    memoDeps s = None ->
    webGLContext s = None /\ creations (host s) = creations h0;
  st_memo_some :
    memoDeps s <> None ->
    memoDeps s = Some c
    /\ (if supportsWebGL c
        then usable s /\ creations (host s) = S (creations h0)
        else webGLContext s = None /\ creations (host s) = creations h0);
  st_ctx_sync :
    sameContext (snd (effectDeps s)) (webGLContext s) = true;
  st_eff_ready :
    fst (effectDeps s) = true -> isVideoReady s = true;
  st_eff_memo :
    fst (effectDeps s) = true -> memoDeps s <> None;
  st_loop_some :
    forall l, loop s = Some l ->
              mounted s = true /\ fst (effectDeps s) = true
              /\ webGLContext s = Some (Loop.context l)
              /\ Loop.gl l = true
              /\ released h0 (host s) 0;
  st_loop_none :
    loop s = None ->
    (mounted s = true -> fst (effectDeps s) = false \/ webGLContext s = None)
    /\ released h0 (host s)
                (if negb (mounted s) && fst (effectDeps s) && hasContext s
                 then 1 else 0);
  st_listener :
    canplayListener s = true -> mounted s = true /\ isVideoReady s = false
}.

(** What holds between events: the second effect has seen the current
    value of [isVideoReady]. *)
Definition coherent (c : Canvas) (h0 : Host.t) (s : View.t) : Prop :=
  settled c h0 s /\ fst (effectDeps s) = isVideoReady s.

(** A session to try things on: the video becomes ready, two frames pass
    and the view is unmounted. *)
Definition sampleSession : list Event :=
  [Canplay (Loop.fullFrame 0); AnimationFrame 40 (Loop.fullFrame 1);
   AnimationFrame 80 (Loop.fullFrame 2); Unmount].

End Coherence.

(* ================================================================== *)
(** ** The application around the view: token, API call, chat, download *)
(* ================================================================== *)

Module JS.

(** A JavaScript string, as its sequence of code units. *)
Definition JSString : Type := list ascii.

Definition lit (s : string) : JSString := list_ascii_of_string s.

(** Truthiness of a string: it is not empty. *)
Definition truthy (s : JSString) : bool :=
  match s with [] => false | _ :: _ => true end.

(** [s.slice(-n)]: the last [n] code units, the whole string when it is
    shorter. *)
Definition sliceLast (n : nat) (s : JSString) : JSString :=
  skipn (List.length s - n) s.

(** [s.split(sep)] for a one-character separator. *)
Fixpoint split (sep : ascii) (s : JSString) : list JSString :=
  match s with
  | [] => [[]]
  | c :: s' =>
      if Ascii.eqb c sep then [] :: split sep s'
      else match split sep s' with
           | p :: ps => (c :: p) :: ps
           | [] => [[c]]
           end
  end.

(** A value interpolated in a template literal; [undefined] prints as its
    name. *)
Definition interpolate (v : option JSString) : JSString :=
  match v with Some s => s | None => lit "undefined" end.

End JS.

Module Token.
Import JS.

(** [getDisplayToken] of [App], on the token held in the state. *)
Definition getDisplayToken (token : JSString) : JSString :=
  if Nat.ltb 4 (List.length token)
  then lit "****" ++ sliceLast 4 token
  else token.

End Token.

Module Client.
Import JS.

Section WithConversation.

(** The type [IConversation] of [./types] and the one field [App] reads
    of it. *)
Variable Conversation : Type.
Variable conversation_url : Conversation -> JSString.

(** *** [createConversation] *)

(** What is thrown: the error made for a response that is not [ok], or
    whatever [fetch] or [response.json()] rejected with. *)
Inductive Error : Type :=
| HttpError (status : nat)
| Rejected (reason : JSString).

Record Request : Type := mkRequest {
  url               : JSString;
  method            : JSString;
  contentType       : JSString;
  apiKey            : JSString;
  persona_id        : JSString;
  apply_greenscreen : bool
}.

Record Response : Type := mkResponse {
  ok     : bool;
  status : nat;
  json   : Conversation + JSString     (* the parsed body, or a rejection *)
}.

Inductive FetchOutcome : Type :=
| Failed (reason : JSString)
| Resolved (r : Response).

(** The request [createConversation] sends. *)
Definition request (token : JSString) : Request :=
  mkRequest (lit "https://tavusapi.com/v2/conversations") (lit "POST")
            (lit "application/json") token (lit "p9a95912") true.

(** The [try] block from the point where [fetch] settles. *)
Definition attempt (o : FetchOutcome) : Conversation + Error :=
  match o with
  | Failed reason => inr (Rejected reason)
  | Resolved r =>
      if negb (ok r) then inr (HttpError (status r))
      else match json r with
           | inl data => inl data
           | inr reason => inr (Rejected reason)
           end
  end.

(** The whole function from that point: the [catch] block logs the error
    and throws it again.  The second component is what [console.error]
    received. *)
Definition settle (o : FetchOutcome) : (Conversation + Error) * list Error :=
  match attempt o with
  | inl data => (inl data, [])
  | inr e => (inr e, [e])
  end.

(** [createConversation(token)] against a network that answers a request
    with an outcome. *)
Definition createConversation (token : JSString)
           (fetch : Request -> FetchOutcome)
  : (Conversation + Error) * list Error :=
  settle (fetch (request token)).

(** *** The [App] component *)

(** Where [startVideoCall] is suspended. *)
Inductive Phase : Type :=
| Idle
| AwaitingCreate
| AwaitingJoin (c : Conversation).

Inductive LogEntry : Type :=
| ApiError (e : Error)           (* logged by createConversation *)
| JoinFailed (e : Error)         (* "Failed to join the call:" *)
| TokenRequired.                 (* "Token is required to start the call" *)

Record App : Type := mkApp {
  token            : JSString;
  isTokenSubmitted : bool;
  conversation     : option Conversation;
  loading          : bool;
  daily            : bool;             (* useDaily() gave a call object *)
  phase            : Phase;
  requests         : list Request;     (* calls of fetch *)
  joins            : list JSString;    (* urls given to DailyCall.join *)
  console          : list LogEntry
}.

Definition initialApp (hasDaily : bool) : App :=
  mkApp [] false None false hasDaily Idle [] [] [].

Definition setToken (v : JSString) (s : App) : App :=
  mkApp v (isTokenSubmitted s) (conversation s) (loading s) (daily s)
        (phase s) (requests s) (joins s) (console s).

(** [handleTokenSubmit]. *)
Definition handleTokenSubmit (s : App) : App :=
  mkApp (token s) true (conversation s) (loading s) (daily s)
        (phase s) (requests s) (joins s) (console s).

(** [startVideoCall] up to its first [await]. *)
Definition startVideoCall (s : App) : App :=
  if truthy (token s) && daily s
  then mkApp (token s) (isTokenSubmitted s) (conversation s) true (daily s)
             AwaitingCreate (requests s ++ [request (token s)]) (joins s)
             (console s)
  else mkApp (token s) (isTokenSubmitted s) (conversation s) (loading s)
             (daily s) (phase s) (requests s) (joins s)
             (console s ++ [TokenRequired]).

(** [startVideoCall] resumed when the request settles: on success it goes
    on to [DailyCall.join]; on failure the error, already logged by
    [createConversation], is logged by the [catch] block and [loading] is
    reset. *)
Definition resumeAfterCreate (o : FetchOutcome) (s : App) : App :=
  match settle o with
  | (inl c, _) =>
      mkApp (token s) (isTokenSubmitted s) (conversation s) (loading s)
            (daily s) (AwaitingJoin c) (requests s)
            (joins s ++ [conversation_url c]) (console s)
  | (inr e, logged) =>
      mkApp (token s) (isTokenSubmitted s) (conversation s) false (daily s)
            Idle (requests s) (joins s)
            (console s ++ map ApiError logged ++ [JoinFailed e])
  end.

(** [startVideoCall] resumed when [DailyCall.join] settles. *)
Definition resumeAfterJoin (c : Conversation) (r : unit + Error) (s : App)
  : App :=
  match r with
  | inl _ =>
      mkApp (token s) (isTokenSubmitted s) (Some c) false (daily s)
            Idle (requests s) (joins s) (console s)
  | inr e =>
      mkApp (token s) (isTokenSubmitted s) (conversation s) false (daily s)
            Idle (requests s) (joins s) (console s ++ [JoinFailed e])
  end.

(** What the markup makes of the state. *)
Definition inputValue (s : App) : JSString :=
  if isTokenSubmitted s then Token.getDisplayToken (token s) else token s.
Definition inputDisabled (s : App) : bool := isTokenSubmitted s.
Definition submitDisabled (s : App) : bool := isTokenSubmitted s.
Definition startShown (s : App) : bool :=
  isTokenSubmitted s
  && match conversation s with None => true | Some _ => false end.
Definition startDisabled (s : App) : bool :=
  negb (isTokenSubmitted s) || loading s.
Definition callShown (s : App) : bool :=
  match conversation s with Some _ => true | None => false end.

Inductive AppEvent : Type :=
| Change (v : JSString)               (* typing in the input *)
| Submit                              (* submitting the form *)
| ClickStart                          (* the "Start Video Call" button *)
| FetchSettled (o : FetchOutcome)
| JoinSettled (r : unit + Error).

(** A disabled or absent control receives no event; a settlement resumes
    the function only where it is suspended. *)
Definition appStep (s : App) (e : AppEvent) : App :=
  match e with
  | Change v => if inputDisabled s then s else setToken v s
  | Submit => if submitDisabled s then s else handleTokenSubmit s
  | ClickStart =>
      if startShown s && negb (startDisabled s) then startVideoCall s else s
  | FetchSettled o =>
      match phase s with AwaitingCreate => resumeAfterCreate o s | _ => s end
  | JoinSettled r =>
      match phase s with AwaitingJoin c => resumeAfterJoin c r s | _ => s end
  end.

Definition appRun (s : App) (es : list AppEvent) : App :=
  fold_left appStep es s.

(** What holds of [App] in every state it reaches. *)
Definition appInvariant (s : App) : Prop :=
  (loading s = true <-> phase s <> Idle)
  /\ (conversation s <> None -> phase s = Idle /\ isTokenSubmitted s = true)
  /\ (phase s <> Idle -> isTokenSubmitted s = true)
  /\ (isTokenSubmitted s = false -> requests s = [])
  /\ Forall (fun r => r = request (token s) /\ truthy (token s) = true)
            (requests s)
  /\ (requests s <> [] -> daily s = true)
  /\ (List.length (joins s) <= List.length (requests s))%nat
  /\ (phase s = AwaitingCreate ->
      (List.length (joins s) < List.length (requests s))%nat)
  /\ (forall c, conversation s = Some c -> In (conversation_url c) (joins s))
  /\ (forall c, phase s = AwaitingJoin c -> In (conversation_url c) (joins s)).

End WithConversation.

Arguments Idle {Conversation}.
Arguments AwaitingCreate {Conversation}.
Arguments AwaitingJoin {Conversation} _.
Arguments Failed {Conversation} _.
Arguments Resolved {Conversation} _.
Arguments mkResponse {Conversation} _ _ _.
Arguments mkApp {Conversation} _ _ _ _ _ _ _ _ _.
Arguments ok {Conversation} _.
Arguments status {Conversation} _.
Arguments json {Conversation} _.
Arguments attempt {Conversation} _.
Arguments settle {Conversation} _.
Arguments token {Conversation} _.
Arguments isTokenSubmitted {Conversation} _.
Arguments conversation {Conversation} _.
Arguments loading {Conversation} _.
Arguments daily {Conversation} _.
Arguments phase {Conversation} _.
Arguments requests {Conversation} _.
Arguments joins {Conversation} _.
Arguments console {Conversation} _.
Arguments handleTokenSubmit {Conversation} _.
Arguments startVideoCall {Conversation} _.
Arguments inputValue {Conversation} _.
Arguments inputDisabled {Conversation} _.
Arguments submitDisabled {Conversation} _.
Arguments startShown {Conversation} _.
Arguments startDisabled {Conversation} _.
Arguments callShown {Conversation} _.
Arguments createConversation {Conversation} _ _.
Arguments setToken {Conversation} _ _.
Arguments resumeAfterCreate {Conversation} _ _ _.
Arguments resumeAfterJoin {Conversation} _ _ _.
Arguments Change {Conversation} _.
Arguments Submit {Conversation}.
Arguments ClickStart {Conversation}.
Arguments FetchSettled {Conversation} _.
Arguments JoinSettled {Conversation} _.
Arguments appStep {Conversation} _ _ _.
Arguments appRun {Conversation} _ _ _.
Arguments appInvariant {Conversation} _ _.

(** A run to try things on: conversations are named by their url; a token
    is typed and submitted, the call is started, the API answers with a
    conversation and the join succeeds. *)
Definition sampleEvents : list (AppEvent JSString) :=
  [Change (lit "sk-12345678"); Submit; ClickStart;
   FetchSettled (Resolved (mkResponse true 200 (inl (lit "https://c/1"))));
   JoinSettled (inl tt)].

Definition sampleApp : App JSString :=
  appRun (fun c => c) (initialApp JSString true) sampleEvents.

(** The same run up to the point where the API request is in flight. *)
Definition sampleAwaiting : App JSString :=
  appRun (fun c => c) (initialApp JSString true)
         [Change (lit "sk-12345678"); Submit; ClickStart].

End Client.

Module Chat.
Import JS.

(** The data of an ["app-message"] event, as far as the listener reads
    it. *)
Record Utterance : Type := mkUtterance { role : JSString; speech : JSString }.

Record EventData : Type := mkEventData {
  event_type : JSString;
  properties : Utterance
}.

Inductive MessageKind : Type := Respond | Echo.

(** An argument of [daily.sendAppMessage]. *)
Record AppMessage : Type := mkAppMessage {
  kind            : MessageKind;     (* conversation.respond / .echo *)
  conversation_id : JSString;
  text            : JSString
}.

Record t : Type := mk {
  userMessage : JSString;
  messages    : list Utterance;
  sent        : list AppMessage
}.

Definition initial : t := mk [] [] [].

Definition isUtterance (ty : JSString) : bool :=
  if list_eq_dec ascii_dec ty (lit "conversation.utterance")
  then true else false.

(** The listener of ["app-message"]; [data] is [event.data], which may be
    absent. *)
Definition onAppMessage (data : option EventData) (s : t) : t :=
  match data with
  | Some d =>
      if isUtterance (event_type d)
      then mk (userMessage s)
              (messages s ++ [mkUtterance (role (properties d))
                                          (speech (properties d))])
              (sent s)
      else s
  | None => s
  end.

Definition setUserMessage (v : JSString) (s : t) : t :=
  mk v (messages s) (sent s).

(** The body shared by [handleSendMessage] and [handleEchoMessage];
    [hasDaily] tells whether [useDaily()] gave a call object. *)
Definition send (k : MessageKind) (conversationId : JSString)
           (hasDaily : bool) (s : t) : t :=
  if negb (truthy (userMessage s)) then s
  else
    let out := if hasDaily
               then sent s ++ [mkAppMessage k conversationId (userMessage s)]
               else sent s in
    mk [] (messages s) out.

Definition handleSendMessage := send Respond.
Definition handleEchoMessage := send Echo.

Inductive Event : Type :=
| AppMessageEvent (data : option EventData)
| Input (v : JSString)
| ClickSend
| ClickEcho.

Definition step (conversationId : JSString) (hasDaily : bool)
           (s : t) (e : Event) : t :=
  match e with
  | AppMessageEvent d => onAppMessage d s
  | Input v => setUserMessage v s
  | ClickSend => handleSendMessage conversationId hasDaily s
  | ClickEcho => handleEchoMessage conversationId hasDaily s
  end.

Definition run (conversationId : JSString) (hasDaily : bool)
           (s : t) (es : list Event) : t :=
  fold_left (step conversationId hasDaily) es s.

(** The utterances among a sequence of events, in order. *)
Fixpoint utterances (es : list Event) : list Utterance :=
  match es with
  | [] => []
  | AppMessageEvent (Some d) :: es' =>
      if isUtterance (event_type d)
      then mkUtterance (role (properties d)) (speech (properties d))
           :: utterances es'
      else utterances es'
  | _ :: es' => utterances es'
  end.

End Chat.

Module Download.
Import JS.

(** What [handleSubmit] does to the page. *)
Inductive Effect : Type :=
| CreateObjectURL (url : nat)
| ClickAnchor (href : nat) (download : JSString)
| RevokeObjectURL (url : nat).

(** [blob.type.split('/')[1]]. *)
Definition extension (type : JSString) : option JSString :=
  nth_error (split "/"%char type) 1.

(** The template [`${Date.now()}test-video.${ext}`]; [now] is the printed
    value of [Date.now()]. *)
Definition fileName (now : JSString) (type : JSString) : JSString :=
  now ++ lit "test-video." ++ interpolate (extension type).

(** [handleSubmit(blob)]; [url] is the object URL the browser hands out. *)
Definition handleSubmit (now : JSString) (type : JSString) (url : nat)
  : list Effect :=
  [CreateObjectURL url; ClickAnchor url (fileName now type);
   RevokeObjectURL url].

End Download.

(* ================================================================== *)
(** ** Properties of the fragment stage *)
(* ================================================================== *)

Module ShaderFacts.
Import Shader.
Import Lra.
Local Open Scope R_scope.

Lemma length_vsub_rgb (c : vec4 R) (k : vec3 R) :
  length (vsub (rgb c) k) = rgb_distance c k.
Proof. reflexivity. Qed.

Lemma f_ltb_true (a b : R) : f_ltb a b = true <-> a < b.
Proof.
  simpl. destruct (Rlt_dec a b) as [Hlt | Hge]; split; intro Hx;
    try reflexivity; try assumption; try discriminate; contradiction.
Qed.

Lemma f_ltb_false (a b : R) : f_ltb a b = false <-> ~ a < b.
Proof.
  simpl. destruct (Rlt_dec a b) as [Hlt | Hge]; split; intro Hx;
    try reflexivity; try assumption; try discriminate; contradiction.
Qed.

(** Below a positive bound, a square root and its argument compare the
    same way as the bound and its square. *)
Lemma sqrt_below_iff (x b : R) :
  0 <= x -> (sqrt x < b <-> 0 < b /\ x < b * b).
Proof.
  intros Hx. split.
  - intros Hlt.
    assert (Hs : 0 <= sqrt x) by apply sqrt_pos.
    split; [lra |].
    rewrite <- (sqrt_sqrt x Hx). nra.
  - intros [Hb Hlt].
    rewrite <- (sqrt_square b) by lra.
    apply sqrt_lt_1_alt. lra.
Qed.

Lemma sum_squares_nonneg (a b c : R) : 0 <= a * a + b * b + c * c.
Proof. nra. Qed.

Lemma Q2R_zero : Q2R 0 = 0.
Proof. unfold Q2R. simpl. lra. Qed.

Lemma dist2Q_to_R (c : vec4 Q) (k : vec3 Q) :
  Q2R (dist2Q c k)
  = (cr (vec4Q_to_R c) - vx (vec3Q_to_R k))
    * (cr (vec4Q_to_R c) - vx (vec3Q_to_R k))
    + (cg (vec4Q_to_R c) - vy (vec3Q_to_R k))
      * (cg (vec4Q_to_R c) - vy (vec3Q_to_R k))
    + (cb (vec4Q_to_R c) - vz (vec3Q_to_R k))
      * (cb (vec4Q_to_R c) - vz (vec3Q_to_R k)).
Proof.
  unfold dist2Q. simpl.
  rewrite !Q2R_plus, !Q2R_mult, !Q2R_minus. reflexivity.
Qed.

(** The rational decision agrees with the shader's test on the reals. *)
Lemma keyedQ_spec (k : vec3 Q) (t : Q) (c : vec4 Q) :
  keyedQ k t c = true
  <-> rgb_distance (vec4Q_to_R c) (vec3Q_to_R k) < Q2R t.
Proof.
  unfold rgb_distance. rewrite <- dist2Q_to_R.
  assert (Hnn : 0 <= Q2R (dist2Q c k)).
  { rewrite dist2Q_to_R. apply sum_squares_nonneg. }
  rewrite (sqrt_below_iff _ _ Hnn).
  unfold keyedQ.
  destruct (Qlt_le_dec 0 t) as [Hpos | Hneg].
  - apply Qlt_Rlt in Hpos. rewrite Q2R_zero in Hpos.
    destruct (Qlt_le_dec (dist2Q c k) (t * t)) as [Hlt | Hge].
    + apply Qlt_Rlt in Hlt. rewrite Q2R_mult in Hlt.
      split; [intros _; split; assumption | reflexivity].
    + apply Qle_Rle in Hge. rewrite Q2R_mult in Hge.
      split; [discriminate | intros [_ Hc]; lra].
  - apply Qle_Rle in Hneg. rewrite Q2R_zero in Hneg.
    split; [discriminate | intros [Hc _]; lra].
Qed.

(** The shader run on the real images of rational inputs gives the real
    image of the rational result. *)
Lemma fragment_mainQ_sound (k : vec3 Q) (t : Q) (c : vec4 Q) :
  fragment_main (vec3Q_to_R k) (Q2R t) (vec4Q_to_R c)
  = vec4Q_to_R (fragment_mainQ k t c).
Proof.
  unfold fragment_main, fragment_mainQ.
  rewrite length_vsub_rgb.
  destruct (keyedQ k t c) eqn:Hk.
  - apply keyedQ_spec in Hk. apply f_ltb_true in Hk. rewrite Hk.
    unfold vec4Q_to_R. simpl. rewrite Q2R_zero. reflexivity.
  - destruct (f_ltb (rgb_distance (vec4Q_to_R c) (vec3Q_to_R k)) (Q2R t))
      eqn:Hf; [| reflexivity].
    apply f_ltb_true in Hf. apply keyedQ_spec in Hf. congruence.
Qed.

Lemma fragment_main_keyed (c : vec4 R) (k : vec3 R) (t : R) :
  rgb_distance c k < t -> fragment_main k t c = Vec4 0 0 0 0.
Proof.
  intros Hlt. unfold fragment_main. rewrite length_vsub_rgb.
  apply f_ltb_true in Hlt. rewrite Hlt. reflexivity.
Qed.

Lemma fragment_main_kept (c : vec4 R) (k : vec3 R) (t : R) :
  ~ rgb_distance c k < t -> fragment_main k t c = c.
Proof.
  intros Hge. unfold fragment_main. rewrite length_vsub_rgb.
  apply f_ltb_false in Hge. rewrite Hge. reflexivity.
Qed.

(** In IEEE arithmetic two numbers that compare equal do not compare
    strictly below. *)
Lemma SFeqb_not_ltb (x y : ieee) :
  SpecFloat.SFeqb x y = true -> SpecFloat.SFltb x y = false.
Proof.
  unfold SpecFloat.SFeqb, SpecFloat.SFltb.
  destruct (SpecFloat.SFcompare x y) as [[| |] |];
    intros Heq; try discriminate Heq; reflexivity.
Qed.



(** C2.  With key colour (3, 255, 156)/255 and threshold 0.3, a texel of
    the key colour comes out with alpha 0 and opaque black comes out
    unchanged, on the reals and through the rational decision alike. *)
Theorem fragment_main_scenario :
  (forall a, ca (fragment_main keyColor threshold
                   (Vec4 (3 / 255) (255 / 255) (156 / 255) a)) = 0)
  /\ fragment_main keyColor threshold (Vec4 0 0 0 1) = Vec4 0 0 0 1
  /\ (forall a, ca (fragment_mainQ keyColorQ thresholdQ
                      (Vec4 (3 # 255) (255 # 255) (156 # 255) a)) = 0%Q)
  /\ fragment_mainQ keyColorQ thresholdQ (Vec4 0 0 0 1)%Q
     = (Vec4 0 0 0 1)%Q.
Proof.
  split; [| split; [| split]].
  - intros a.
    rewrite fragment_main_keyed; [reflexivity |].
    unfold rgb_distance, keyColor, threshold. simpl.
    replace ((3 / 255 - 3 / 255) * (3 / 255 - 3 / 255)
             + (255 / 255 - 255 / 255) * (255 / 255 - 255 / 255)
             + (156 / 255 - 156 / 255) * (156 / 255 - 156 / 255))
      with 0 by lra.
    rewrite sqrt_0. lra.
  - apply fragment_main_kept.
    unfold rgb_distance, keyColor, threshold. simpl.
    intros Hlt.
    apply sqrt_below_iff in Hlt;
      [destruct Hlt as [_ Hsq]; lra | apply sum_squares_nonneg].
  - intros a. vm_compute. reflexivity.
  - vm_compute. reflexivity.
Qed.

(** C10.  The if/else formulation emitting [vec4(0.0, 0.0, 0.0, 0.0)] and
    the ternary formulation emitting [vec4(0.0)] produce the same pixel
    for every texel, key colour and threshold, whatever the arithmetic of
    [float] is. *)
Theorem fragment_main_formulations_agree
        (F : Type) (ops : GLFloat F) (k : vec3 F) (t : F) (c : vec4 F) :
  fragment_main k t c = fragment_main_ternary k t c.
Proof.
  unfold fragment_main, fragment_main_ternary, vec4_splat.
  destruct (f_ltb (length (vsub (rgb c) k)) t); reflexivity.
Qed.

End ShaderFacts.

(* ================================================================== *)
(** ** Properties of the render loop *)
(* ================================================================== *)

Module LoopFacts.
Import Host Loop.
Import Lqa.
Local Open Scope Q_scope.

Lemma frameInterval_pos : 0 < frameInterval.
Proof. reflexivity. Qed.

(** *** What one call of [applyChromaKey] does *)

Lemma quiet_refl (s : Loop.t * Host.t) : quiet s s.
Proof. unfold quiet. repeat split. Qed.

Lemma quiet_trans (s1 s2 s3 : Loop.t * Host.t) :
  quiet s1 s2 -> quiet s2 s3 -> quiet s1 s3.
Proof.
  unfold quiet. intros H12 H23.
  repeat match goal with H : _ /\ _ |- _ => destruct H end.
  repeat split; congruence.
Qed.

Lemma reschedule_quiet (s : Loop.t * Host.t) : quiet s (reschedule s).
Proof. destruct s as [l h]. unfold quiet. repeat split. Qed.

Lemma reschedule_pending (s : Loop.t * Host.t) :
  rafPending (snd (reschedule s)) = rafPending (snd s) ++ [rafNext (snd s)]
  /\ animationFrameId (fst (reschedule s)) = Some (rafNext (snd s))
  /\ rafNext (snd (reschedule s)) = S (rafNext (snd s)).
Proof. destruct s as [l h]. repeat split. Qed.

Lemma applyChromaKey_skip (now : Q) (v : VideoElement) (s : Loop.t * Host.t) :
  now - lastFrameTime (fst s) < frameInterval ->
  applyChromaKey now v s = reschedule s.
Proof.
  destruct s as [l h]. simpl. intros Hlt. unfold applyChromaKey.
  destruct (Qlt_le_dec (now - lastFrameTime l) frameInterval) as [_ | Hge].
  - reflexivity.
  - exfalso. apply (Qlt_not_le _ _ Hlt Hge).
Qed.

Lemma applyChromaKey_accept (now : Q) (v : VideoElement)
      (l : Loop.t) (h : Host.t) :
  frameInterval <= now - lastFrameTime l ->
  applyChromaKey now v (l, h)
  = reschedule (setLastFrameTime now l,
                if frameAvailable (setLastFrameTime now l) v
                then uploadAndDraw (setLastFrameTime now l) v h else h).
Proof.
  intros Hge. unfold applyChromaKey.
  destruct (Qlt_le_dec (now - lastFrameTime l) frameInterval) as [Hlt | _].
  - exfalso. apply (Qlt_not_le _ _ Hlt Hge).
  - reflexivity.
Qed.

Lemma uploadAndDraw_counts (l : Loop.t) (v : VideoElement) (h : Host.t) :
  drawCalls (uploadAndDraw l v h) = S (drawCalls h)
  /\ uploads (uploadAndDraw l v h) = S (uploads h)
  /\ textureImage (uploadAndDraw l v h) = Some (currentFrame v)
  /\ canvasWidth (uploadAndDraw l v h) = videoWidth v
  /\ canvasHeight (uploadAndDraw l v h) = videoHeight v
  /\ rafPending (uploadAndDraw l v h) = rafPending h
  /\ rafNext (uploadAndDraw l v h) = rafNext h.
Proof. repeat split. Qed.

Lemma frameAvailable_setLastFrameTime (now : Q) (l : Loop.t)
      (v : VideoElement) :
  frameAvailable (setLastFrameTime now l) v = frameAvailable l v.
Proof. reflexivity. Qed.

Lemma applyChromaKey_accepted (now : Q) (v : VideoElement)
      (s : Loop.t * Host.t) :
  frameInterval <= now - lastFrameTime (fst s) ->
  accepted now v s (applyChromaKey now v s).
Proof.
  destruct s as [l h]. intros Hge. simpl in Hge.
  rewrite (applyChromaKey_accept now v l h Hge).
  rewrite frameAvailable_setLastFrameTime.
  unfold accepted. simpl.
  destruct (frameAvailable l v); repeat split.
Qed.

(** A quiet continuation keeps what an accepted call left behind. *)
Lemma accepted_quiet (now : Q) (v : VideoElement)
      (s s1 s2 : Loop.t * Host.t) :
  accepted now v s s1 -> quiet s1 s2 -> accepted now v s s2.
Proof.
  unfold accepted, quiet, drawCalls, uploads, countCalls.
  intros Ha Hq.
  repeat match goal with H : _ /\ _ |- _ => destruct H end.
  repeat split; try congruence.
  destruct (frameAvailable (fst s) v);
    repeat match goal with H : _ /\ _ |- _ => destruct H end;
    repeat split; congruence.
Qed.

(** *** What one scheduler tick does *)

Lemma tick_callbacks (s : Loop.t * Host.t) (k : Tick) :
  tick s k
  = callbacks (fst k) (snd k) (rafPending (snd s))
              (fst s, snd (takePending (snd s))).
Proof. reflexivity. Qed.

Lemma callbacks_single (now : Q) (v : VideoElement) (id : nat)
      (s : Loop.t * Host.t) :
  callbacks now v [id] s = applyChromaKey now v s.
Proof. reflexivity. Qed.

Lemma takePending_quiet (s : Loop.t * Host.t) :
  quiet s (fst s, snd (takePending (snd s))).
Proof. unfold quiet. repeat split. Qed.

Lemma callbacks_skip (now : Q) (v : VideoElement) (ids : list nat) :
  forall s : Loop.t * Host.t,
    now - lastFrameTime (fst s) < frameInterval ->
    quiet s (callbacks now v ids s).
Proof.
  induction ids as [| id ids IH]; intros s Hlt.
  - apply quiet_refl.
  - simpl. rewrite (applyChromaKey_skip now v s Hlt).
    apply quiet_trans with (s2 := reschedule s).
    + apply reschedule_quiet.
    + apply IH.
      destruct (reschedule_quiet s) as (_ & _ & _ & _ & Hl & _).
      rewrite Hl. exact Hlt.
Qed.

Lemma callbacks_accept (now : Q) (v : VideoElement) (ids : list nat)
      (s : Loop.t * Host.t) :
  frameInterval <= now - lastFrameTime (fst s) ->
  ids <> [] ->
  accepted now v s (callbacks now v ids s).
Proof.
  intros Hge Hne. destruct ids as [| id ids]; [congruence |].
  simpl.
  pose proof (applyChromaKey_accepted now v s Hge) as Hacc.
  apply accepted_quiet with (s1 := applyChromaKey now v s); [exact Hacc |].
  apply callbacks_skip.
  destruct Hacc as [Hl _]. rewrite Hl.
  pose proof frameInterval_pos. lra.
Qed.

Lemma tick_skip (s : Loop.t * Host.t) (k : Tick) :
  fst k - lastFrameTime (fst s) < frameInterval ->
  quiet s (tick s k).
Proof.
  intros Hlt. rewrite tick_callbacks.
  apply quiet_trans with (s2 := (fst s, snd (takePending (snd s)))).
  - apply takePending_quiet.
  - apply callbacks_skip. exact Hlt.
Qed.

Lemma tick_accept (s : Loop.t * Host.t) (k : Tick) :
  frameInterval <= fst k - lastFrameTime (fst s) ->
  rafPending (snd s) <> [] ->
  accepted (fst k) (snd k) s (tick s k).
Proof.
  intros Hge Hne. rewrite tick_callbacks.
  pose proof (callbacks_accept (fst k) (snd k) (rafPending (snd s))
                (fst s, snd (takePending (snd s))) Hge Hne) as Hacc.
  unfold accepted in *. simpl in *. exact Hacc.
Qed.

(** Without a pending callback a tick runs nothing. *)
Lemma tick_idle (s : Loop.t * Host.t) (k : Tick) :
  rafPending (snd s) = [] -> tick s k = s.
Proof.
  destruct s as [l h]. destruct h. simpl. intros ->. reflexivity.
Qed.

Lemma quiet_not_drewAt (s : Loop.t * Host.t) (k : Tick) :
  quiet s (tick s k) -> drewAt s k = false.
Proof.
  intros Hq. destruct Hq as (_ & _ & _ & _ & _ & Hc & _).
  unfold drewAt, drawCalls, countCalls. rewrite Hc.
  rewrite Nat.ltb_irrefl. reflexivity.
Qed.

(** A tick either skips, runs nothing, or accepts. *)
Lemma tick_cases (s : Loop.t * Host.t) (k : Tick) :
  quiet s (tick s k)
  \/ (frameInterval <= fst k - lastFrameTime (fst s)
      /\ accepted (fst k) (snd k) s (tick s k)).
Proof.
  destruct (Qlt_le_dec (fst k - lastFrameTime (fst s)) frameInterval)
    as [Hlt | Hge].
  - left. apply tick_skip. exact Hlt.
  - destruct (rafPending (snd s)) as [| id ids] eqn:Hp.
    + left. rewrite (tick_idle s k Hp). apply quiet_refl.
    + right. split; [exact Hge |].
      apply tick_accept; [exact Hge | rewrite Hp; discriminate].
Qed.

(** *** The pending callback of a started loop *)

Lemma applyChromaKey_pending (now : Q) (v : VideoElement)
      (s : Loop.t * Host.t) :
  rafPending (snd (applyChromaKey now v s))
  = rafPending (snd s) ++ [rafNext (snd s)]
  /\ animationFrameId (fst (applyChromaKey now v s))
     = Some (rafNext (snd s)).
Proof.
  destruct s as [l h]. unfold applyChromaKey.
  destruct (Qlt_le_dec (now - lastFrameTime l) frameInterval).
  - split; reflexivity.
  - destruct (frameAvailable (setLastFrameTime now l) v);
      split; reflexivity.
Qed.

Lemma start_scheduled (hv hc hg : bool) (ctx : WebGLContext)
      (v : VideoElement) (h : Host.t) :
  rafPending h = [] -> scheduled (start hv hc hg ctx v h).
Proof.
  intros Hp. unfold start.
  destruct (applyChromaKey_pending 0 v (mk hv hc hg ctx 0 None, h))
    as [Hq Ha].
  cbn [fst snd] in Hq, Ha. rewrite Hp in Hq.
  exists (rafNext h). split; [exact Hq | exact Ha].
Qed.

Lemma tick_scheduled (s : Loop.t * Host.t) (k : Tick) :
  scheduled s -> scheduled (tick s k).
Proof.
  intros [id [Hp Ha]]. rewrite tick_callbacks, Hp, callbacks_single.
  destruct (applyChromaKey_pending (fst k) (snd k)
              (fst s, snd (takePending (snd s)))) as [Hq Hb].
  cbn [fst snd takePending rafPending rafNext app] in Hq, Hb.
  exists (rafNext (snd s)). split; assumption.
Qed.

Lemma run_scheduled (ks : list Tick) :
  forall s : Loop.t * Host.t, scheduled s -> scheduled (run s ks).
Proof.
  induction ks as [| k ks IH]; intros s Hs; [exact Hs |].
  simpl. apply IH. apply tick_scheduled. exact Hs.
Qed.

Lemma scheduled_pending (s : Loop.t * Host.t) :
  scheduled s -> rafPending (snd s) <> [].
Proof. intros [id [Hp _]]. rewrite Hp. discriminate. Qed.

Lemma tick_sameClosure_call (now : Q) (v : VideoElement)
      (s : Loop.t * Host.t) :
  sameClosure s (applyChromaKey now v s).
Proof.
  unfold sameClosure.
  destruct (Qlt_le_dec (now - lastFrameTime (fst s)) frameInterval)
    as [Hlt | Hge].
  - rewrite (applyChromaKey_skip now v s Hlt).
    destruct (reschedule_quiet s) as (Hv & Hc & Hg & Hx & _).
    repeat split; assumption.
  - destruct (applyChromaKey_accepted now v s Hge)
      as (_ & Hv & Hc & Hg & Hx & _).
    repeat split; assumption.
Qed.

Lemma tick_sameClosure (s : Loop.t * Host.t) (k : Tick) :
  sameClosure s (tick s k).
Proof.
  unfold sameClosure.
  destruct (tick_cases s k) as [Hq | [_ Ha]].
  - destruct Hq as (Hv & Hc & Hg & Hx & _). repeat split; assumption.
  - destruct Ha as (_ & Hv & Hc & Hg & Hx & _). repeat split; assumption.
Qed.

Lemma run_sameClosure (ks : list Tick) :
  forall s : Loop.t * Host.t, sameClosure s (run s ks).
Proof.
  induction ks as [| k ks IH]; intros s.
  - unfold sameClosure. repeat split.
  - simpl. specialize (IH (tick s k)).
    destruct (tick_sameClosure s k) as (Hv & Hc & Hg & Hx).
    destruct IH as (Hv' & Hc' & Hg' & Hx').
    unfold sameClosure. repeat split; congruence.
Qed.

Lemma sameClosure_frameAvailable (s s' : Loop.t * Host.t) (v : VideoElement) :
  sameClosure s s' -> frameAvailable (fst s') v = frameAvailable (fst s) v.
Proof.
  intros (Hv & Hc & Hg & _). unfold frameAvailable.
  rewrite Hv, Hc, Hg. reflexivity.
Qed.

Lemma accepted_drewAt (s : Loop.t * Host.t) (k : Tick) :
  accepted (fst k) (snd k) s (tick s k) ->
  frameAvailable (fst s) (snd k) = true ->
  drewAt s k = true.
Proof.
  intros (_ & _ & _ & _ & _ & Hd) Hav. rewrite Hav in Hd.
  destruct Hd as (Hd & Hu & _).
  unfold drewAt. rewrite Hd, Hu.
  rewrite !(proj2 (Nat.ltb_lt _ _)) by lia. reflexivity.
Qed.

Lemma accepted_no_frame (s : Loop.t * Host.t) (k : Tick) :
  accepted (fst k) (snd k) s (tick s k) ->
  frameAvailable (fst s) (snd k) = false ->
  drewAt s k = false /\ glCalls (snd (tick s k)) = glCalls (snd s)
  /\ textureImage (snd (tick s k)) = textureImage (snd s).
Proof.
  intros (_ & _ & _ & _ & _ & Hd) Hav. rewrite Hav in Hd.
  destruct Hd as (Hc & Ht).
  unfold drewAt, drawCalls, countCalls. rewrite Hc, Nat.ltb_irrefl.
  repeat split; assumption.
Qed.

(** A tick that drew passed the rate check. *)
Lemma drewAt_accepted (s : Loop.t * Host.t) (k : Tick) :
  drewAt s k = true ->
  frameInterval <= fst k - lastFrameTime (fst s)
  /\ accepted (fst k) (snd k) s (tick s k).
Proof.
  intros Hd. destruct (tick_cases s k) as [Hq | Ha]; [| exact Ha].
  rewrite (quiet_not_drewAt s k Hq) in Hd. discriminate.
Qed.

(** *** Runs of ticks *)

Lemma drawing_cons (s : Loop.t * Host.t) (k : Tick) (ks : list Tick) :
  drawing s (k :: ks)
  = ((if drewAt s k then 1 else 0) + drawing (tick s k) ks)%nat.
Proof. unfold drawing. simpl. destruct (drewAt s k); reflexivity. Qed.

Lemma run_skip (ks : list Tick) :
  forall s : Loop.t * Host.t,
    Forall (fun k => fst k - lastFrameTime (fst s) < frameInterval) ks ->
    quiet s (run s ks) /\ drawing s ks = 0%nat.
Proof.
  induction ks as [| k ks IH]; intros s Hall.
  - split; [apply quiet_refl | reflexivity].
  - inversion Hall as [| k' ks' Hk Hks]; subst.
    pose proof (tick_skip s k Hk) as Hq.
    assert (Hall' : Forall (fun k' => fst k' - lastFrameTime (fst (tick s k))
                                      < frameInterval) ks).
    { destruct Hq as (_ & _ & _ & _ & Hl & _). rewrite Hl. exact Hks. }
    destruct (IH (tick s k) Hall') as [Hq' Hd'].
    split.
    + simpl. apply quiet_trans with (s2 := tick s k); assumption.
    + rewrite drawing_cons, (quiet_not_drewAt s k Hq), Hd'. reflexivity.
Qed.

Lemma quiet_counts (s s' : Loop.t * Host.t) :
  quiet s s' ->
  drawCalls (snd s') = drawCalls (snd s) /\ uploads (snd s') = uploads (snd s).
Proof.
  intros (_ & _ & _ & _ & _ & Hc & _).
  unfold drawCalls, uploads, countCalls. rewrite Hc. split; reflexivity.
Qed.

Lemma accepted_counts (now : Q) (v : VideoElement) (s s' : Loop.t * Host.t) :
  accepted now v s s' ->
  (drawCalls (snd s') <= S (drawCalls (snd s)))%nat
  /\ (uploads (snd s') <= S (uploads (snd s)))%nat.
Proof.
  intros (_ & _ & _ & _ & _ & Hd).
  destruct (frameAvailable (fst s) v).
  - destruct Hd as (Hd & Hu & _). rewrite Hd, Hu. split; lia.
  - destruct Hd as (Hc & _).
    unfold drawCalls, uploads, countCalls. rewrite Hc. split; lia.
Qed.

Lemma spaced_after (d : Q) (k : Tick) (ks : list Tick) :
  Forall (fun k' => Qabs (fst k' - fst k) < d) ks ->
  Forall (fun k' => fst k' - fst k < d) ks.
Proof.
  apply Forall_impl. intros k' Hk.
  apply Qle_lt_trans with (y := Qabs (fst k' - fst k)); [apply Qle_Qabs | exact Hk].
Qed.

Lemma run_spaced (ks : list Tick) :
  forall s : Loop.t * Host.t,
    spacedBelow frameInterval ks ->
    (drawing s ks <= 1)%nat
    /\ (drawCalls (snd (run s ks)) <= S (drawCalls (snd s)))%nat
    /\ (uploads (snd (run s ks)) <= S (uploads (snd s)))%nat.
Proof.
  induction ks as [| k ks IH]; intros s Hsp.
  - simpl. repeat split; unfold drawing; simpl; lia.
  - destruct Hsp as [Hk Hsp]. rewrite drawing_cons. simpl.
    destruct (tick_cases s k) as [Hq | [_ Ha]].
    + destruct (IH (tick s k) Hsp) as (Hd & Hc & Hu).
      destruct (quiet_counts _ _ Hq) as [Hc' Hu'].
      rewrite (quiet_not_drewAt s k Hq).
      rewrite Hc' in Hc. rewrite Hu' in Hu.
      repeat split; [simpl; exact Hd | exact Hc | exact Hu].
    + assert (Hall : Forall (fun k' => fst k' - lastFrameTime (fst (tick s k))
                                       < frameInterval) ks).
      { destruct Ha as (Hl & _). rewrite Hl. apply spaced_after. exact Hk. }
      destruct (run_skip ks (tick s k) Hall) as [Hq' Hd'].
      destruct (quiet_counts _ _ Hq') as [Hc' Hu'].
      destruct (accepted_counts _ _ _ _ Ha) as [Hc Hu].
      rewrite Hd', Hc', Hu'.
      repeat split; [destruct (drewAt s k); simpl; lia | exact Hc | exact Hu].
Qed.

(** *** The rate governor *)

(** C3, as the code behaves.  With [lastFrameTime] in its initial state, a
    callback pending and a fully decoded frame available at every tick, the
    ticks at 0, 10, 20 and 40 ms draw at 40 ms only: the tick at 0 ms is
    within one frame interval of the initial clock value 0 and is skipped
    like those at 10 and 20 ms. *)
Theorem governor_scenario (s : Loop.t * Host.t) (v0 v1 v2 v3 : VideoElement) :
  lastFrameTime (fst s) = 0 ->
  scheduled s ->
  (forall v, In v [v0; v1; v2; v3] -> frameAvailable (fst s) v = true) ->
  draws s [(0, v0); (10, v1); (20, v2); (40, v3)]
  = [false; false; false; true].
Proof.
  intros Hl Hs Hav.
  assert (Hskip : forall (s' : Loop.t * Host.t) (k : Tick),
             lastFrameTime (fst s') = 0 -> fst k - 0 < frameInterval ->
             drewAt s' k = false /\ lastFrameTime (fst (tick s' k)) = 0).
  { intros s' k Hl' Hk.
    assert (Hq : quiet s' (tick s' k)) by (apply tick_skip; rewrite Hl'; exact Hk).
    split; [apply quiet_not_drewAt; exact Hq |].
    destruct Hq as (_ & _ & _ & _ & Hl'' & _). congruence. }
  set (s1 := tick s (0, v0)).
  set (s2 := tick s1 (10, v1)).
  set (s3 := tick s2 (20, v2)).
  destruct (Hskip s (0, v0) Hl) as [Hd0 Hl1]; [reflexivity |].
  destruct (Hskip s1 (10, v1) Hl1) as [Hd1 Hl2]; [reflexivity |].
  destruct (Hskip s2 (20, v2) Hl2) as [Hd2 Hl3]; [reflexivity |].
  assert (Hd3 : drewAt s3 (40, v3) = true).
  { apply accepted_drewAt.
    - apply tick_accept.
      + fold s1 s2 in Hl3. fold s3 in Hl3. rewrite Hl3. simpl. discriminate.
      + apply scheduled_pending.
        apply (run_scheduled [(0, v0); (10, v1); (20, v2)] s Hs).
    - rewrite (sameClosure_frameAvailable s s3).
      + apply Hav. simpl. auto.
      + apply (run_sameClosure [(0, v0); (10, v1); (20, v2)] s). }
  simpl. fold s1. fold s2. fold s3.
  rewrite Hd0, Hd1, Hd2, Hd3. reflexivity.
Qed.

Lemma startedLoop_scheduled : scheduled startedLoop.
Proof. apply start_scheduled. reflexivity. Qed.

Lemma governor_scenario_witness :
  draws startedLoop [(0, fullFrame 1); (10, fullFrame 2); (20, fullFrame 3);
                     (40, fullFrame 4)]
  = [false; false; false; true].
Proof.
  apply (governor_scenario startedLoop).
  - reflexivity.
  - exact startedLoop_scheduled.
  - intros v [<- | [<- | [<- | [<- | []]]]]; reflexivity.
Defined.

(** C3, as the specification words it, fails: on the started loop the tick
    at 0 ms does not draw, so the drawing ticks are not those at 0 and
    40 ms. *)
Lemma governor_scenario_no_draw_at_zero :
  drewAt startedLoop (0, fullFrame 1) = false
  /\ draws startedLoop [(0, fullFrame 1); (10, fullFrame 2);
                        (20, fullFrame 3); (40, fullFrame 4)]
     <> [true; false; false; true].
Proof. split; [vm_compute; reflexivity | vm_compute; discriminate]. Qed.

Lemma run_clock_lower_bound (ks : list Tick) :
  forall (s : Loop.t * Host.t) (b : Q),
    b <= lastFrameTime (fst s) ->
    Forall (fun k => b <= fst k) ks ->
    b <= lastFrameTime (fst (run s ks)).
Proof.
  induction ks as [| k ks IH]; intros s b Hb Hall; [exact Hb |].
  inversion Hall as [| k' ks' Hk Hks]; subst.
  simpl. apply IH; [| exact Hks].
  destruct (tick_cases s k) as [Hq | [_ Ha]].
  - destruct Hq as (_ & _ & _ & _ & Hl & _). rewrite Hl. exact Hb.
  - destruct Ha as (Hl & _). rewrite Hl. exact Hk.
Qed.

(** X2.  Two ticks of a run that both draw are at least one frame interval
    apart, whatever ticks lie between them, as long as no timestamp after
    the first of the two is earlier than it. *)
Lemma draws_spaced_apart (s : Loop.t * Host.t) (k k' : Tick)
      (mid : list Tick) :
  Forall (fun x => fst k <= fst x) mid ->
  drewAt s k = true ->
  drewAt (run (tick s k) mid) k' = true ->
  frameInterval <= fst k' - fst k.
Proof.
  intros Hmid Hd Hd'.
  destruct (drewAt_accepted s k Hd) as [_ (Hl & _)].
  destruct (drewAt_accepted _ k' Hd') as [Hge _].
  assert (Hb : fst k <= lastFrameTime (fst (run (tick s k) mid))).
  { apply run_clock_lower_bound; [rewrite Hl; apply Qle_refl | exact Hmid]. }
  lra.
Qed.

(** C4.  Over consecutive ticks whose timestamps are pairwise less than one
    frame interval apart at most one tick uploads and draws, whatever the
    state the run starts in; and a tick skipped by the rate check leaves the
    image in the texture and [lastFrameTime] as they were. *)
Theorem rate_limit_at_most_one_draw (s : Loop.t * Host.t) (ks : list Tick) :
  spacedBelow frameInterval ks ->
  (drawing s ks <= 1)%nat
  /\ (drawCalls (snd (run s ks)) <= S (drawCalls (snd s)))%nat
  /\ (uploads (snd (run s ks)) <= S (uploads (snd s)))%nat
  /\ (forall pre k post,
         ks = pre ++ k :: post ->
         fst k - lastFrameTime (fst (run s pre)) < frameInterval ->
         textureImage (snd (tick (run s pre) k))
         = textureImage (snd (run s pre))
         /\ lastFrameTime (fst (tick (run s pre) k))
            = lastFrameTime (fst (run s pre))
         /\ drewAt (run s pre) k = false).
Proof.
  intros Hsp.
  destruct (run_spaced ks s Hsp) as (Hd & Hc & Hu).
  split; [exact Hd | split; [exact Hc | split; [exact Hu |]]].
  intros pre k post _ Hk.
  pose proof (tick_skip (run s pre) k Hk) as Hq.
  split; [| split].
  - destruct Hq as (_ & _ & _ & _ & _ & _ & Ht & _). exact Ht.
  - destruct Hq as (_ & _ & _ & _ & Hl & _). exact Hl.
  - apply quiet_not_drewAt. exact Hq.
Qed.

Lemma rate_limit_witness :
  le (drawing startedLoop [(40, fullFrame 1); (50, fullFrame 2);
                           (60, fullFrame 3)]) 1%nat.
Proof.
  apply (rate_limit_at_most_one_draw startedLoop
           [(40, fullFrame 1); (50, fullFrame 2); (60, fullFrame 3)]).
  simpl. repeat constructor.
Defined.

(** C5, as the code behaves.  While the loop runs, the time compared with
    the frame interval is the time since [lastFrameTime], and
    [lastFrameTime] is set to the tick's timestamp on exactly the ticks that
    pass the rate check, whether or not the video had a fully decoded frame
    then; a tick that draws is one of them, a rate-skipped tick leaves the
    clock alone and draws nothing. *)
Theorem clock_follows_rate_check (s : Loop.t * Host.t) (k : Tick) :
  scheduled s ->
  (fst k - lastFrameTime (fst s) < frameInterval ->
   lastFrameTime (fst (tick s k)) = lastFrameTime (fst s)
   /\ drewAt s k = false)
  /\ (frameInterval <= fst k - lastFrameTime (fst s) ->
      lastFrameTime (fst (tick s k)) = fst k
      /\ drewAt s k = frameAvailable (fst s) (snd k))
  /\ (drewAt s k = true -> lastFrameTime (fst (tick s k)) = fst k).
Proof.
  intros Hs. split; [| split].
  - intros Hlt. pose proof (tick_skip s k Hlt) as Hq.
    split; [| apply quiet_not_drewAt; exact Hq].
    destruct Hq as (_ & _ & _ & _ & Hl & _). exact Hl.
  - intros Hge.
    pose proof (tick_accept s k Hge (scheduled_pending s Hs)) as Ha.
    split; [destruct Ha as (Hl & _); exact Hl |].
    destruct (frameAvailable (fst s) (snd k)) eqn:Hav.
    + apply accepted_drewAt; assumption.
    + apply accepted_no_frame; assumption.
  - intros Hd. destruct (drewAt_accepted s k Hd) as [_ (Hl & _)]. exact Hl.
Qed.

Lemma clock_follows_rate_check_witness :
  lastFrameTime (fst (tick startedLoop (40, partialFrame 1))) = 40
  /\ drewAt startedLoop (40, partialFrame 1)
     = frameAvailable (fst startedLoop) (partialFrame 1).
Proof.
  apply (clock_follows_rate_check startedLoop (40, partialFrame 1)
                                  startedLoop_scheduled).
  vm_compute. discriminate.
Defined.

(** C5, as the specification words it, fails: the tick at 40 ms finds no
    fully decoded frame and draws nothing, yet it moves [lastFrameTime] from
    0 to 40; the tick at 50 ms, with a decoded frame and no frame drawn so
    far, is then skipped as too early. *)
Lemma clock_updated_without_draw :
  drewAt startedLoop (40, partialFrame 1) = false
  /\ drawCalls (snd (tick startedLoop (40, partialFrame 1))) = 0%nat
  /\ lastFrameTime (fst startedLoop) = 0
  /\ lastFrameTime (fst (tick startedLoop (40, partialFrame 1))) = 40
  /\ drewAt (tick startedLoop (40, partialFrame 1)) (50, fullFrame 2) = false.
Proof. vm_compute. repeat split. Qed.

(** *** Cancellation *)

Lemma cancel_closure (s : Loop.t * Host.t) : fst (cancel s) = fst s.
Proof. destruct s as [l h]. reflexivity. Qed.

Lemma cancelTimes_closure (n : nat) :
  forall s : Loop.t * Host.t, fst (cancelTimes n s) = fst s.
Proof.
  induction n as [| n IH]; intros s; [reflexivity |].
  simpl. rewrite IH. apply cancel_closure.
Qed.

Lemma cancel_disposes (s : Loop.t * Host.t) :
  disposable (fst s) ->
  disposals (snd (cancel s)) = S (disposals (snd s))
  /\ textureDisposals (snd (cancel s)) = S (textureDisposals (snd s))
  /\ programDeleted (snd (cancel s)) = true
  /\ textureDeleted (snd (cancel s)) = true
  /\ drawCalls (snd (cancel s)) = drawCalls (snd s)
  /\ rafPending (snd (cancel s))
     = match animationFrameId (fst s) with
       | Some i => filter (fun j => negb (Nat.eqb j i)) (rafPending (snd s))
       | None => rafPending (snd s)
       end.
Proof.
  destruct s as [l h]. intros (Hg & Hp & Hx). simpl in Hg, Hp, Hx.
  unfold cancel, cleanup. rewrite Hg.
  destruct (program (context l)) as [p |]; [| congruence].
  destruct (texture (context l)) as [x |]; [| congruence].
  cbn [fst snd].
  destruct (animationFrameId l) as [i |]; repeat split.
Qed.

Lemma cancel_unschedules (s : Loop.t * Host.t) :
  scheduled s -> disposable (fst s) -> rafPending (snd (cancel s)) = [].
Proof.
  intros [id [Hp Ha]] Hd.
  destruct (cancel_disposes s Hd) as (_ & _ & _ & _ & _ & Hq).
  rewrite Hq, Ha, Hp. simpl. rewrite Nat.eqb_refl. reflexivity.
Qed.

Lemma cancel_again (s : Loop.t * Host.t) :
  rafPending (snd s) = [] -> rafPending (snd (cancel s)) = [].
Proof.
  destruct s as [l h]. simpl. intros Hp. unfold cancel, cleanup.
  assert (Hc : rafPending (cancelAnimationFrame (animationFrameId l) h) = []).
  { destruct (animationFrameId l); simpl; rewrite Hp; reflexivity. }
  destruct (gl l); [| exact Hc].
  destruct (program (context l)); [| exact Hc].
  destruct (texture (context l)); exact Hc.
Qed.

Lemma cancelTimes_counts (n : nat) :
  forall s : Loop.t * Host.t,
    disposable (fst s) ->
    disposals (snd (cancelTimes n s)) = (disposals (snd s) + n)%nat
    /\ textureDisposals (snd (cancelTimes n s))
       = (textureDisposals (snd s) + n)%nat
    /\ drawCalls (snd (cancelTimes n s)) = drawCalls (snd s).
Proof.
  induction n as [| n IH]; intros s Hd.
  - simpl. repeat split; lia.
  - simpl.
    destruct (cancel_disposes s Hd) as (Hp & Hx & _ & _ & Hdr & _).
    assert (Hd' : disposable (fst (cancel s)))
      by (rewrite cancel_closure; exact Hd).
    destruct (IH (cancel s) Hd') as (Hp' & Hx' & Hdr').
    rewrite Hp', Hx', Hdr', Hp, Hx, Hdr. repeat split; lia.
Qed.

Lemma cancelTimes_released (n : nat) :
  forall s : Loop.t * Host.t,
    disposable (fst s) ->
    programDeleted (snd s) = true -> textureDeleted (snd s) = true ->
    rafPending (snd s) = [] ->
    programDeleted (snd (cancelTimes n s)) = true
    /\ textureDeleted (snd (cancelTimes n s)) = true
    /\ rafPending (snd (cancelTimes n s)) = [].
Proof.
  induction n as [| n IH]; intros s Hd Hp Hx Hr.
  - simpl. repeat split; assumption.
  - simpl.
    destruct (cancel_disposes s Hd) as (_ & _ & Hp' & Hx' & _ & _).
    apply IH; try assumption.
    + rewrite cancel_closure. exact Hd.
    + apply cancel_again. exact Hr.
Qed.

Lemma run_idle (ks : list Tick) :
  forall s : Loop.t * Host.t, rafPending (snd s) = [] -> run s ks = s.
Proof.
  induction ks as [| k ks IH]; intros s Hp; [reflexivity |].
  simpl. rewrite (tick_idle s k Hp). apply IH. exact Hp.
Qed.

Lemma started_disposable (hv hc : bool) (ctx : WebGLContext)
      (v : VideoElement) (h : Host.t) (ks : list Tick) :
  program ctx <> None -> texture ctx <> None ->
  disposable (fst (run (start hv hc true ctx v h) ks)).
Proof.
  intros Hp Hx.
  destruct (run_sameClosure ks (start hv hc true ctx v h))
    as (_ & _ & Hg & Hc).
  assert (Hs : sameClosure (mk hv hc true ctx 0 None, h)
                           (start hv hc true ctx v h)).
  { unfold start. apply (tick_sameClosure_call 0 v). }
  destruct Hs as (_ & _ & Hg0 & Hc0).
  unfold disposable. rewrite Hg, Hc, Hg0, Hc0.
  split; [reflexivity | split; [exact Hp | exact Hx]].
Qed.

(** C8, as the code behaves.  On a started render loop, [n >= 1] calls of
    the cancel handle leave no callback pending, so no later tick runs or
    reschedules anything, and leave the program and the texture released;
    no call fails.  Every call issues [deleteProgram] and [deleteTexture]
    again: [n] calls issue each of them [n] times. *)
Theorem cancel_repeated (hv hc : bool) (ctx : WebGLContext)
        (v : VideoElement) (h : Host.t) (ks : list Tick) (n : nat) :
  rafPending h = [] ->
  program ctx <> None ->
  texture ctx <> None ->
  (1 <= n)%nat ->
  let s := run (start hv hc true ctx v h) ks in
  let s' := cancelTimes n s in
  rafPending (snd s') = []
  /\ (forall ks', run s' ks' = s')
  /\ programDeleted (snd s') = true
  /\ textureDeleted (snd s') = true
  /\ disposals (snd s') = (disposals (snd s) + n)%nat
  /\ textureDisposals (snd s') = (textureDisposals (snd s) + n)%nat
  /\ drawCalls (snd s') = drawCalls (snd s).
Proof.
  intros Hh Hp Hx Hn s s'.
  assert (Hd : disposable (fst s)) by (apply started_disposable; assumption).
  assert (Hs : scheduled s)
    by (apply run_scheduled; apply start_scheduled; exact Hh).
  destruct (cancelTimes_counts n s Hd) as (Hcp & Hcx & Hcd).
  destruct n as [| m]; [lia |].
  destruct (cancel_disposes s Hd) as (_ & _ & Hpd & Hxd & _ & _).
  assert (Hd' : disposable (fst (cancel s)))
    by (rewrite cancel_closure; exact Hd).
  destruct (cancelTimes_released m (cancel s) Hd' Hpd Hxd
              (cancel_unschedules s Hs Hd)) as (Hpr & Hxr & Hrr).
  change (cancelTimes m (cancel s)) with s' in Hpr, Hxr, Hrr.
  split; [exact Hrr |].
  split; [intros ks'; apply run_idle; exact Hrr |].
  split; [exact Hpr |].
  split; [exact Hxr |].
  split; [exact Hcp |].
  split; [exact Hcx | exact Hcd].
Qed.

Lemma cancel_repeated_witness :
  rafPending (snd (cancelTimes 2 (run startedLoop [(40, fullFrame 1)]))) = []
  /\ disposals (snd (cancelTimes 2 (run startedLoop [(40, fullFrame 1)])))
     = Nat.add (disposals (snd (run startedLoop [(40, fullFrame 1)]))) 2%nat.
Proof.
  destruct (cancel_repeated true true scenarioContext (fullFrame 0)
              scenarioHost [(40, fullFrame 1)] 2)
    as (Hr & _ & _ & _ & Hd & _).
  - reflexivity.
  - discriminate.
  - discriminate.
  - lia.
  - split; [exact Hr | exact Hd].
Defined.

(** C8, as the specification words it, fails: two calls of the cancel
    handle issue [deleteProgram] and [deleteTexture] twice each, not once. *)
Lemma cancel_twice_disposes_twice :
  disposals (snd startedLoop) = 0%nat
  /\ disposals (snd (cancelTimes 1 startedLoop)) = 1%nat
  /\ disposals (snd (cancelTimes 2 startedLoop)) = 2%nat
  /\ textureDisposals (snd (cancelTimes 2 startedLoop)) = 2%nat.
Proof. vm_compute. repeat split. Qed.

End LoopFacts.

(* ================================================================== *)
(** ** Properties of the [Video] component *)
(* ================================================================== *)

Module ViewFacts.
Import Host View.
Import LoopFacts.

Lemma untouched_refl (h : Host.t) : untouched h h.
Proof. unfold untouched. repeat split. Qed.

Lemma untouched_trans (h1 h2 h3 : Host.t) :
  untouched h1 h2 -> untouched h2 h3 -> untouched h1 h3.
Proof.
  unfold untouched. intros (A & B & C & D) (A' & B' & C' & D').
  repeat split; congruence.
Qed.

Lemma nothingDrawn_refl (h : Host.t) : nothingDrawn h h.
Proof. split; reflexivity. Qed.

Lemma nothingDrawn_trans (h1 h2 h3 : Host.t) :
  nothingDrawn h1 h2 -> nothingDrawn h2 h3 -> nothingDrawn h1 h3.
Proof.
  unfold nothingDrawn. intros (A & B) (A' & B'). split; congruence.
Qed.

Lemma untouched_nothingDrawn (h h' : Host.t) :
  untouched h h' -> nothingDrawn h h'.
Proof. intros (A & B & _). split; assumption. Qed.

(** [initWebGL] uploads and draws nothing and requests no callback. *)
Lemma initWebGL_untouched (h : Host.t) :
  untouched h (snd (Loop.initWebGL h)).
Proof. unfold untouched. repeat split. Qed.

Lemma acquire_untouched (ref : option Canvas) (hasGl : bool) (h : Host.t) :
  untouched h (snd (acquire ref hasGl h)).
Proof.
  unfold acquire. destruct ref as [c |]; [| apply untouched_refl].
  destruct (supportsWebGL c); [| apply untouched_refl].
  pose proof (initWebGL_untouched h) as Hu.
  destruct (Loop.initWebGL h) as [ctx h']. exact Hu.
Qed.

Lemma useMemoContext_untouched (s : t) :
  untouched (host s) (snd (useMemoContext s)).
Proof.
  unfold useMemoContext.
  destruct (sameCanvas (memoDeps s) (canvasRef s)).
  - apply untouched_refl.
  - apply acquire_untouched.
Qed.

(** The call [applyChromaKey(0)] made by the effect is within one frame
    interval of the initial clock value: it only requests a callback. *)
Lemma start_reschedules (hv hc hg : bool) (ctx : Loop.WebGLContext)
      (v : VideoElement) (h : Host.t) :
  Loop.start hv hc hg ctx v h
  = Loop.reschedule (Loop.mk hv hc hg ctx 0 None, h).
Proof.
  unfold Loop.start. apply applyChromaKey_skip. reflexivity.
Qed.

Lemma start_nothingDrawn (hv hc hg : bool) (ctx : Loop.WebGLContext)
      (v : VideoElement) (h : Host.t) :
  nothingDrawn h (snd (Loop.start hv hc hg ctx v h)).
Proof. rewrite start_reschedules. split; reflexivity. Qed.

Lemma cleanup_nothingDrawn (s : Loop.t * Host.t) :
  nothingDrawn (snd s) (snd (Loop.cleanup s)).
Proof.
  destruct s as [l h]. unfold Loop.cleanup.
  destruct (Loop.animationFrameId l);
    destruct (Loop.gl l); destruct (Loop.program (Loop.context l));
    destruct (Loop.texture (Loop.context l)); split; reflexivity.
Qed.

(** Without a previous loop the effect either returns at its guard,
    leaving the host alone, or starts a loop. *)
Lemma runEffect_guard (ready : bool) (ctx : option Loop.WebGLContext)
      (s : t) (hasGl : bool) (v : VideoElement) (h : Host.t) :
  loop s = None ->
  ready = false \/ ctx = None ->
  runEffect ready ctx s hasGl v h = (None, h).
Proof.
  intros Hl Hg. unfold runEffect. rewrite Hl.
  destruct Hg as [-> | ->]; [reflexivity |].
  destruct ready; reflexivity.
Qed.

Lemma runEffect_nothingDrawn (ready : bool) (ctx : option Loop.WebGLContext)
      (s : t) (hasGl : bool) (v : VideoElement) (h : Host.t) :
  nothingDrawn h (snd (runEffect ready ctx s hasGl v h)).
Proof.
  unfold runEffect.
  set (h1 := match loop s with
             | Some l => snd (Loop.cleanup (l, h))
             | None => h
             end).
  assert (H1 : nothingDrawn h h1).
  { unfold h1. destruct (loop s) as [l |]; [| apply nothingDrawn_refl].
    apply (cleanup_nothingDrawn (l, h)). }
  destruct ready; [| exact H1].
  destruct ctx as [c |]; [| exact H1].
  pose proof (start_nothingDrawn (videoRef s)
                (match canvasRef s with Some _ => true | None => false end)
                hasGl c v h1) as H2.
  destruct (Loop.start _ _ _ c v h1) as [l' h']. simpl in *.
  apply nothingDrawn_trans with (h2 := h1); assumption.
Qed.

(** *** What a render keeps *)

Lemma render_keeps (v : VideoElement) (s : t) :
  isVideoReady (render v s) = isVideoReady s
  /\ canplayListener (render v s) = canplayListener s
  /\ mounted (render v s) = mounted s
  /\ videoRef (render v s) = videoRef s
  /\ canvasRef (render v s) = canvasRef s.
Proof.
  unfold render. destruct (negb (mounted s)); [repeat split |].
  destruct (useMemoContext s) as [[ctx hasGl] h].
  destruct (sameDeps s ctx); [repeat split |].
  destruct (runEffect (isVideoReady s) ctx s hasGl v h) as [l h'].
  repeat split.
Qed.

Lemma render_nothingDrawn (v : VideoElement) (s : t) :
  nothingDrawn (host s) (host (render v s)).
Proof.
  unfold render. destruct (negb (mounted s)); [apply nothingDrawn_refl |].
  pose proof (useMemoContext_untouched s) as Hm.
  destruct (useMemoContext s) as [[ctx hasGl] h]. simpl in Hm.
  apply untouched_nothingDrawn in Hm.
  destruct (sameDeps s ctx); [exact Hm |].
  pose proof (runEffect_nothingDrawn (isVideoReady s) ctx s hasGl v h) as He.
  destruct (runEffect (isVideoReady s) ctx s hasGl v h) as [l h'].
  simpl in *. apply nothingDrawn_trans with (h2 := h); assumption.
Qed.

(** Before readiness a render starts no loop and leaves the scheduler
    alone. *)
Lemma render_not_ready (v : VideoElement) (s : t) :
  isVideoReady s = false -> loop s = None ->
  loop (render v s) = None /\ untouched (host s) (host (render v s)).
Proof.
  intros Hr Hl. unfold render.
  destruct (negb (mounted s)); [split; [exact Hl | apply untouched_refl] |].
  pose proof (useMemoContext_untouched s) as Hm.
  destruct (useMemoContext s) as [[ctx hasGl] h]. simpl in Hm.
  destruct (sameDeps s ctx); [split; [exact Hl | exact Hm] |].
  rewrite Hr, (runEffect_guard false ctx s hasGl v h Hl (or_introl eq_refl)).
  split; [reflexivity | exact Hm].
Qed.

Lemma render_unmounted (v : VideoElement) (s : t) :
  mounted s = false -> render v s = s.
Proof. intros Hm. unfold render. rewrite Hm. reflexivity. Qed.

(** *** Readiness *)

Lemma checkVideoReady_ready (v : VideoElement) (s : t) :
  isVideoReady (checkVideoReady v s)
  = isVideoReady s || Nat.leb 2 (readyState v).
Proof.
  unfold checkVideoReady. destruct (Nat.leb 2 (readyState v)); simpl.
  - rewrite orb_true_r. reflexivity.
  - rewrite orb_false_r. reflexivity.
Qed.

Lemma dispatchCanplay_ready (v : VideoElement) (s : t) :
  isVideoReady (dispatchCanplay v s)
  = isVideoReady s || Nat.leb 2 (readyState v).
Proof.
  unfold dispatchCanplay.
  destruct (Bool.eqb (isVideoReady s) (isVideoReady (checkVideoReady v s))).
  - apply checkVideoReady_ready.
  - destruct (render_keeps v (checkVideoReady v s)) as (Hr & _).
    rewrite Hr. apply checkVideoReady_ready.
Qed.

(** No event takes [isVideoReady] back to NotReady. *)
Lemma step_ready (s : t) (e : Event) :
  isVideoReady s = true -> isVideoReady (step s e) = true.
Proof.
  intros Hr. destruct e as [v | v | now v |]; simpl.
  - destruct (canplayListener s); [| exact Hr].
    rewrite dispatchCanplay_ready, Hr. reflexivity.
  - destruct (render_keeps v s) as (Hk & _). rewrite Hk. exact Hr.
  - destruct (loop s) as [l |]; [| exact Hr].
    destruct (Loop.animationFrame now v (l, host s)). exact Hr.
  - destruct (negb (mounted s)); exact Hr.
Qed.

Lemma runEvents_ready (es : list Event) :
  forall s : t, isVideoReady s = true -> isVideoReady (runEvents s es) = true.
Proof.
  induction es as [| e es IH]; intros s Hr; [exact Hr |].
  simpl. apply IH. apply step_ready. exact Hr.
Qed.

Lemma transitions_ready (es : list Event) :
  forall s : t, isVideoReady s = true -> transitions s es = 0%nat.
Proof.
  induction es as [| e es IH]; intros s Hr; [reflexivity |].
  simpl. rewrite Hr. simpl. apply IH. apply step_ready. exact Hr.
Qed.

Lemma transitions_once (es : list Event) :
  forall s : t, (transitions s es <= 1)%nat.
Proof.
  induction es as [| e es IH]; intros s; [simpl; lia |].
  simpl. destruct (isVideoReady s) eqn:Hr; simpl.
  - apply IH.
  - destruct (isVideoReady (step s e)) eqn:Hr'.
    + rewrite (transitions_ready es (step s e) Hr'). lia.
    + apply IH.
Qed.

(** *** The invariant *)

Lemma mount_invariant (c : Canvas) (hasVideo : bool) (h : Host.t) :
  invariant h (mount c hasVideo h).
Proof.
  unfold invariant, mount. simpl. repeat split; try discriminate.
  all: apply untouched_refl.
Qed.

Lemma step_invariant (h0 : Host.t) (s : t) (e : Event) :
  invariant h0 s -> invariant h0 (step s e).
Proof.
  intros Hinv. pose proof Hinv as (I1 & I2 & I3).
  destruct e as [v | v | now v |]; simpl.
  - (* canplay *)
    destruct (canplayListener s) eqn:Hl; [| exact Hinv].
    unfold dispatchCanplay.
    rewrite checkVideoReady_ready.
    unfold checkVideoReady.
    destruct (Nat.leb 2 (readyState v)) eqn:Hrs.
    + destruct (isVideoReady s) eqn:Hr; simpl.
      * discriminate (I2 eq_refl).
      * destruct (render_keeps v (removeListener (setIsVideoReady s)))
          as (Kr & Kl & Km & _ & _).
        simpl in Kr, Kl, Km.
        split; [intros Hx; congruence |].
        split; [intros _; exact Kl |].
        intros Hm. rewrite Km in Hm.
        rewrite render_unmounted by exact Hm. simpl. apply I3. exact Hm.
    + rewrite orb_false_r, eqb_reflx. exact Hinv.
  - (* render *)
    destruct (render_keeps v s) as (Kr & Kl & Km & Kv & _).
    split; [| split].
    + intros Hr. rewrite Kr in Hr. destruct (I1 Hr) as (Il & Iu & Ic).
      destruct (render_not_ready v s Hr Il) as [Hl Hu].
      split; [exact Hl |].
      split; [apply untouched_trans with (h2 := host s); assumption |].
      rewrite Kl, Km, Kv. exact Ic.
    + intros Hr. rewrite Kr in Hr. rewrite Kl. apply I2. exact Hr.
    + intros Hm. rewrite Km in Hm.
      rewrite render_unmounted by exact Hm. apply I3. exact Hm.
  - (* animation frame *)
    destruct (loop s) as [l |] eqn:Hl; [| exact Hinv].
    destruct (Loop.animationFrame now v (l, host s)) as [l' h']. simpl.
    split; [| split].
    + intros Hr. destruct (I1 Hr) as (Hn & _). discriminate.
    + exact I2.
    + intros Hm. specialize (I3 Hm). discriminate.
  - (* unmount *)
    destruct (mounted s) eqn:Hm; simpl; [| exact Hinv].
    split; [| split].
    + intros Hr. destruct (I1 Hr) as (Hn & Hu & _). rewrite Hn.
      repeat split; try reflexivity; apply Hu.
    + reflexivity.
    + reflexivity.
Qed.

Lemma runEvents_invariant (h0 : Host.t) (es : list Event) :
  forall s : t, invariant h0 s -> invariant h0 (runEvents s es).
Proof.
  induction es as [| e es IH]; intros s Hi; [exact Hi |].
  simpl. apply IH. apply step_invariant. exact Hi.
Qed.

Lemma reachable_invariant (c : Canvas) (hasVideo : bool) (h : Host.t)
      (es : list Event) :
  invariant h (runEvents (mount c hasVideo h) es).
Proof. apply runEvents_invariant. apply mount_invariant. Qed.

Lemma runEvents_app (es1 es2 : list Event) (s : t) :
  runEvents s (es1 ++ es2) = runEvents (runEvents s es1) es2.
Proof. unfold runEvents. apply fold_left_app. Qed.

Lemma step_no_loop (s : t) (e : Event) :
  loop s = None -> nothingDrawn (host s) (host (step s e)).
Proof.
  intros Hl. destruct e as [v | v | now v |]; simpl.
  - destruct (canplayListener s); [| apply nothingDrawn_refl].
    unfold dispatchCanplay.
    assert (Hh : host (checkVideoReady v s) = host s).
    { unfold checkVideoReady. destruct (Nat.leb 2 (readyState v)); reflexivity. }
    destruct (Bool.eqb (isVideoReady s) (isVideoReady (checkVideoReady v s))).
    + rewrite Hh. apply nothingDrawn_refl.
    + rewrite <- Hh. apply render_nothingDrawn.
  - apply render_nothingDrawn.
  - rewrite Hl. apply nothingDrawn_refl.
  - destruct (negb (mounted s)); [apply nothingDrawn_refl |].
    rewrite Hl. simpl. apply nothingDrawn_refl.
Qed.

(** Without its listener a component that is not ready stays so. *)
Lemma runEvents_deaf (es : list Event) :
  forall s : t,
    isVideoReady s = false -> canplayListener s = false ->
    isVideoReady (runEvents s es) = false /\ transitions s es = 0%nat.
Proof.
  induction es as [| e es IH]; intros s Hr Hl; [split; [exact Hr | reflexivity] |].
  assert (Hstep : isVideoReady (step s e) = false
                  /\ canplayListener (step s e) = false).
  { destruct e as [v | v | now v |]; simpl.
    - rewrite Hl. split; assumption.
    - destruct (render_keeps v s) as (Kr & Kl & _).
      rewrite Kr, Kl. split; assumption.
    - destruct (loop s) as [l |]; [| split; assumption].
      destruct (Loop.animationFrame now v (l, host s)). simpl.
      split; assumption.
    - destruct (negb (mounted s)); simpl; split;
        first [assumption | reflexivity]. }
  destruct Hstep as [Hr' Hl'].
  destruct (IH (step s e) Hr' Hl') as [Hfin Htr].
  split; [exact Hfin |].
  simpl. rewrite Hr', Htr, andb_false_r. reflexivity.
Qed.

(** While the listener is attached to a mounted component, the run ends
    Ready exactly when it carries a qualifying signal before any unmount,
    and the transition is then made once. *)
Lemma runEvents_listening (es : list Event) :
  forall s : t,
    isVideoReady s = false -> canplayListener s = true -> mounted s = true ->
    isVideoReady (runEvents s es) = signalled es
    /\ transitions s es = (if signalled es then 1 else 0)%nat.
Proof.
  induction es as [| e es IH]; intros s Hr Hl Hm;
    [split; [exact Hr | reflexivity] |].
  destruct e as [v | v | now v |].
  - (* canplay *)
    assert (Hs : isVideoReady (step s (Canplay v)) = Nat.leb 2 (readyState v)).
    { simpl. rewrite Hl, dispatchCanplay_ready, Hr. reflexivity. }
    cbn [runEvents fold_left transitions signalled].
    fold (runEvents (step s (Canplay v)) es).
    rewrite Hs, Hr.
    destruct (Nat.leb 2 (readyState v)) eqn:Hrs.
    + rewrite (runEvents_ready es _ Hs), (transitions_ready es _ Hs).
      split; reflexivity.
    + assert (Hsame : step s (Canplay v) = s).
      { simpl. rewrite Hl. unfold dispatchCanplay, checkVideoReady.
        rewrite Hrs, eqb_reflx. reflexivity. }
      rewrite Hsame. exact (IH s Hr Hl Hm).
  - (* render *)
    destruct (render_keeps v s) as (Kr & Kl & Km & _).
    cbn [runEvents fold_left transitions signalled step].
    fold (runEvents (render v s) es).
    rewrite Kr, Hr. apply IH; congruence.
  - (* animation frame *)
    cbn [runEvents fold_left transitions signalled].
    fold (runEvents (step s (AnimationFrame now v)) es).
    assert (Hk : isVideoReady (step s (AnimationFrame now v)) = false
                 /\ canplayListener (step s (AnimationFrame now v)) = true
                 /\ mounted (step s (AnimationFrame now v)) = true).
    { simpl. destruct (loop s) as [l |]; [| repeat split; assumption].
      destruct (Loop.animationFrame now v (l, host s)). simpl.
      repeat split; assumption. }
    destruct Hk as (Kr & Kl & Km).
    rewrite Kr, andb_false_r. apply IH; assumption.
  - (* unmount *)
    cbn [runEvents fold_left transitions signalled].
    fold (runEvents (step s Unmount) es).
    assert (Hk : isVideoReady (step s Unmount) = false
                 /\ canplayListener (step s Unmount) = false).
    { simpl. rewrite Hm. simpl. split; [exact Hr | reflexivity]. }
    destruct Hk as (Kr & Kl).
    rewrite Kr, andb_false_r.
    exact (runEvents_deaf es _ Kr Kl).
Qed.

(** C6.  A mount attaches the "canplay" listener exactly when there is a
    video element, and starts NotReady.  From there the readiness state
    goes from NotReady to Ready at most once and never back: a run of
    events ends Ready exactly when there is a video element and the run
    carries, before any unmount, a signal of a video at readiness level 2
    or above; the transition is then made exactly once, by the first such
    signal, and otherwise never; no event leaves Ready, a "canplay" signal
    received in Ready changes nothing at all, and in NotReady the signal
    causes the transition exactly when the listener is attached (mounted,
    with a video element) and the video is at readiness level 2 or
    above. *)
Theorem readiness_once (c : Canvas) (hasVideo : bool) (h : Host.t)
        (es : list Event) :
  let s0 := mount c hasVideo h in
  let s := runEvents s0 es in
  isVideoReady s0 = false
  /\ mounted s0 = true
  /\ videoRef s0 = hasVideo
  /\ canplayListener s0 = hasVideo
  /\ isVideoReady s = hasVideo && signalled es
  /\ transitions s0 es = (if hasVideo && signalled es then 1 else 0)%nat
  /\ (forall pre v post,
        es = pre ++ Canplay v :: post ->
        negb (isVideoReady (runEvents s0 pre))
        && isVideoReady (step (runEvents s0 pre) (Canplay v))
        = hasVideo && negb (signalled pre)
          && signalled (pre ++ [Canplay v]))
  /\ (transitions s0 es <= 1)%nat
  /\ (forall e, isVideoReady s = true -> isVideoReady (step s e) = true)
  /\ (forall v, isVideoReady s = true -> step s (Canplay v) = s)
  /\ (forall v, isVideoReady s = false ->
                isVideoReady (step s (Canplay v))
                = mounted s && videoRef s && Nat.leb 2 (readyState v)).
Proof.
  intros s0 s.
  destruct (reachable_invariant c hasVideo h es) as (I1 & I2 & _).
  fold s0 in I1, I2. fold s in I1, I2.
  assert (Hrun : forall es',
             isVideoReady (runEvents s0 es') = hasVideo && signalled es'
             /\ transitions s0 es'
                = (if hasVideo && signalled es' then 1 else 0)%nat).
  { intros es'. destruct hasVideo.
    - apply runEvents_listening; reflexivity.
    - apply runEvents_deaf; reflexivity. }
  split; [reflexivity |].
  split; [reflexivity |].
  split; [reflexivity |].
  split; [reflexivity |].
  split; [apply Hrun |].
  split; [apply Hrun |].
  split.
  { intros pre v post _.
    change (step (runEvents s0 pre) (Canplay v))
      with (runEvents (runEvents s0 pre) [Canplay v]).
    rewrite <- runEvents_app.
    destruct (Hrun pre) as [Hp _].
    destruct (Hrun (pre ++ [Canplay v])) as [Hq _].
    rewrite Hp, Hq.
    destruct hasVideo; simpl; [| reflexivity].
    destruct (signalled pre); reflexivity. }
  split; [apply transitions_once |].
  split; [intros e; apply step_ready |].
  split.
  - intros v Hr. simpl. rewrite (I2 Hr). reflexivity.
  - intros v Hr. simpl. destruct (I1 Hr) as (_ & _ & Hl). rewrite Hl.
    destruct (mounted s && videoRef s); simpl.
    + rewrite dispatchCanplay_ready, Hr. reflexivity.
    + exact Hr.
Qed.

(** C7.  While the readiness state is NotReady no render loop exists: no
    frame was uploaded or drawn and no callback was requested since the
    mount, and a scheduler tick changes nothing.  Whenever an event of a run draws, the
    readiness state was already Ready before that event. *)
Theorem no_draw_before_ready (c : Canvas) (hasVideo : bool) (h : Host.t)
        (es : list Event) :
  let s0 := mount c hasVideo h in
  let s := runEvents s0 es in
  (isVideoReady s = false ->
   loop s = None
   /\ drawCalls (host s) = drawCalls h
   /\ uploads (host s) = uploads h
   /\ rafNext (host s) = rafNext h
   /\ rafPending (host s) = rafPending h
   /\ forall now v, step s (AnimationFrame now v) = s)
  /\ (forall pre e post,
         es = pre ++ e :: post ->
         (drawCalls (host (runEvents s0 pre))
          < drawCalls (host (step (runEvents s0 pre) e)))%nat ->
         isVideoReady (runEvents s0 pre) = true).
Proof.
  intros s0 s. split.
  - intros Hr.
    destruct (reachable_invariant c hasVideo h es) as (I1 & _).
    destruct (I1 Hr) as (Hl & (Hd & Hu & Hn & Hp) & _).
    fold s0 in Hl, Hd, Hu, Hn, Hp. fold s in Hl, Hd, Hu, Hn, Hp.
    repeat split; try assumption.
    intros now v. simpl. rewrite Hl. reflexivity.
  - intros pre e post _ Hlt.
    destruct (isVideoReady (runEvents s0 pre)) eqn:Hr; [reflexivity |].
    destruct (reachable_invariant c hasVideo h pre) as (I1 & _).
    destruct (I1 Hr) as (Hl & _).
    destruct (step_no_loop (runEvents s0 pre) e Hl) as [Hd _].
    fold s0 in Hd. lia.
Qed.

(** *** A surface without a rendering context *)

Lemma mount_contextless (hasVideo : bool) (h : Host.t) :
  contextless h (mount (mkCanvas false) hasVideo h).
Proof. unfold contextless, mount. simpl. auto. Qed.

Lemma useMemoContext_contextless (h0 : Host.t) (s : t) :
  contextless h0 s -> useMemoContext s = (None, glRef s, host s).
Proof.
  intros (Hc & _ & _ & Hr). unfold useMemoContext.
  destruct (sameCanvas (memoDeps s) (canvasRef s)).
  - rewrite Hc. reflexivity.
  - destruct Hr as [-> | ->]; reflexivity.
Qed.

Lemma render_contextless (h0 : Host.t) (v : VideoElement) (s : t) :
  contextless h0 s -> contextless h0 (render v s).
Proof.
  intros Hc. pose proof Hc as (Hw & Hl & Hh & Hr).
  unfold render. destruct (negb (mounted s)); [exact Hc |].
  rewrite (useMemoContext_contextless h0 s Hc).
  destruct (sameDeps s None).
  - unfold contextless. simpl. auto.
  - rewrite (runEffect_guard (isVideoReady s) None s (glRef s) v (host s) Hl
               (or_intror eq_refl)).
    unfold contextless. simpl. auto.
Qed.

Lemma step_contextless (h0 : Host.t) (s : t) (e : Event) :
  contextless h0 s -> contextless h0 (step s e).
Proof.
  intros Hc. pose proof Hc as (Hw & Hl & Hh & Hr).
  destruct e as [v | v | now v |]; simpl.
  - destruct (canplayListener s); [| exact Hc].
    assert (Hc' : contextless h0 (checkVideoReady v s)).
    { unfold checkVideoReady. destruct (Nat.leb 2 (readyState v)); [| exact Hc].
      unfold contextless. simpl. auto. }
    unfold dispatchCanplay.
    destruct (Bool.eqb (isVideoReady s) (isVideoReady (checkVideoReady v s)));
      [exact Hc' | apply render_contextless; exact Hc'].
  - apply render_contextless. exact Hc.
  - rewrite Hl. exact Hc.
  - destruct (negb (mounted s)); [exact Hc |].
    rewrite Hl. unfold contextless. simpl. auto.
Qed.

Lemma runEvents_contextless (h0 : Host.t) (es : list Event) :
  forall s : t, contextless h0 s -> contextless h0 (runEvents s es).
Proof.
  induction es as [| e es IH]; intros s Hc; [exact Hc |].
  simpl. apply IH. apply step_contextless. exact Hc.
Qed.

(** C9.  On a surface that yields no rendering context the memo returns
    null, its failure result, without touching the host; whatever events
    follow, the component holds no context, starts no render loop, issues no
    GPU call and requests no callback, and keeps rendering its markup with
    the (blank) canvas. *)
Theorem no_context_no_loop (hasVideo : bool) (h : Host.t) (es : list Event) :
  let c := mkCanvas false in
  let s := runEvents (mount c hasVideo h) es in
  (forall hasGl h', acquire (Some c) hasGl h' = (None, hasGl, h'))
  /\ webGLContext s = None
  /\ loop s = None
  /\ host s = h
  /\ output s = [DailyVideo true; CanvasElement].
Proof.
  intros c s.
  destruct (runEvents_contextless h es (mount c hasVideo h)
              (mount_contextless hasVideo h)) as (Hw & Hl & Hh & _).
  split; [intros hasGl h'; reflexivity |].
  repeat split; assumption.
Qed.

End ViewFacts.

(* ================================================================== *)
(** ** Further properties of the render loop *)
(* ================================================================== *)

Module LoopMore.
Import Host Loop.
Import LoopFacts.
Import Lqa.
Local Open Scope Q_scope.

(** *** The clock and the frame rate *)

Lemma tick_clock (s : Loop.t * Host.t) (k : Tick) :
  (drewAt s k = false
   /\ lastFrameTime (fst (tick s k)) = lastFrameTime (fst s))
  \/ (frameInterval <= fst k - lastFrameTime (fst s)
      /\ lastFrameTime (fst (tick s k)) = fst k).
Proof.
  destruct (tick_cases s k) as [Hq | [Hge Ha]].
  - left. split; [apply quiet_not_drewAt; exact Hq |].
    destruct Hq as (_ & _ & _ & _ & Hl & _). exact Hl.
  - right. split; [exact Hge |]. destruct Ha as (Hl & _). exact Hl.
Qed.

Lemma drawing_succ (s : Loop.t * Host.t) (k : Tick) (ks : list Tick) :
  inject_Z (Z.of_nat (drawing s (k :: ks)))
  == (if drewAt s k then 1 else 0)
     + inject_Z (Z.of_nat (drawing (tick s k) ks)).
Proof.
  rewrite drawing_cons, Nat2Z.inj_add, inject_Z_plus.
  destruct (drewAt s k); reflexivity.
Qed.

Lemma run_clock_origin (ks : list Tick) :
  forall s : Loop.t * Host.t,
    lastFrameTime (fst (run s ks)) = lastFrameTime (fst s)
    \/ In (lastFrameTime (fst (run s ks))) (map fst ks).
Proof.
  induction ks as [| k ks IH]; intros s; [left; reflexivity |].
  simpl. destruct (IH (tick s k)) as [Heq | Hin].
  - rewrite Heq. destruct (tick_clock s k) as [[_ Hl] | [_ Hl]].
    + left. exact Hl.
    + right. left. symmetry. exact Hl.
  - right. right. exact Hin.
Qed.

(** X1.  The frame rate is bounded by the clock: every tick that draws moves
    [lastFrameTime] forward by at least one frame interval, so a run in
    which [n] ticks draw ends with the clock at least [n] intervals after
    where it started; and the clock only ever holds its initial value or
    the timestamp of a tick of the run. *)
Theorem frame_rate_bound (s : Loop.t * Host.t) (ks : list Tick) :
  inject_Z (Z.of_nat (drawing s ks)) * frameInterval
  <= lastFrameTime (fst (run s ks)) - lastFrameTime (fst s)
  /\ (lastFrameTime (fst (run s ks)) = lastFrameTime (fst s)
      \/ In (lastFrameTime (fst (run s ks))) (map fst ks)).
Proof.
  split; [| apply run_clock_origin].
  revert s. induction ks as [| k ks IH]; intros s.
  - change (0 * frameInterval
            <= lastFrameTime (fst s) - lastFrameTime (fst s)).
    lra.
  - rewrite drawing_succ. simpl run.
    specialize (IH (tick s k)).
    set (n := inject_Z (Z.of_nat (drawing (tick s k) ks))) in *.
    pose proof frameInterval_pos as Hpos.
    destruct (tick_clock s k) as [[Hd Hl] | [Hge Hl]].
    + rewrite Hd. rewrite Hl in IH. lra.
    + rewrite Hl in IH. destruct (drewAt s k); lra.
Qed.

Lemma draws_spaced_apart_witness : frameInterval <= 80 - 40.
Proof.
  apply (draws_spaced_apart startedLoop (40, fullFrame 1) (80, fullFrame 3)
           [(50, fullFrame 2)]).
  - constructor; [| constructor]. vm_compute. discriminate.
  - vm_compute. reflexivity.
  - vm_compute. reflexivity.
Defined.

(** *** What a tick does to the GPU *)

Lemma applyChromaKey_no_frame (now : Q) (v : VideoElement)
      (s : Loop.t * Host.t) :
  frameAvailable (fst s) v = false ->
  glCalls (snd (applyChromaKey now v s)) = glCalls (snd s)
  /\ textureImage (snd (applyChromaKey now v s)) = textureImage (snd s)
  /\ canvasWidth (snd (applyChromaKey now v s)) = canvasWidth (snd s)
  /\ canvasHeight (snd (applyChromaKey now v s)) = canvasHeight (snd s).
Proof.
  destruct s as [l h]. intros Hav. simpl in Hav.
  unfold applyChromaKey.
  destruct (Qlt_le_dec (now - lastFrameTime l) frameInterval).
  - repeat split.
  - rewrite frameAvailable_setLastFrameTime, Hav. repeat split.
Qed.

Lemma callbacks_no_frame (now : Q) (v : VideoElement) (ids : list nat) :
  forall s : Loop.t * Host.t,
    frameAvailable (fst s) v = false ->
    glCalls (snd (callbacks now v ids s)) = glCalls (snd s)
    /\ textureImage (snd (callbacks now v ids s)) = textureImage (snd s)
    /\ canvasWidth (snd (callbacks now v ids s)) = canvasWidth (snd s)
    /\ canvasHeight (snd (callbacks now v ids s)) = canvasHeight (snd s).
Proof.
  induction ids as [| id ids IH]; intros s Hav; [repeat split |].
  simpl.
  destruct (applyChromaKey_no_frame now v s Hav) as (Hc & Ht & Hw & Hh).
  assert (Hav' : frameAvailable (fst (applyChromaKey now v s)) v = false).
  { rewrite (sameClosure_frameAvailable s _ v (tick_sameClosure_call now v s)).
    exact Hav. }
  destruct (IH (applyChromaKey now v s) Hav') as (Hc' & Ht' & Hw' & Hh').
  repeat split; congruence.
Qed.

(** X3.  A tick that finds no fully decoded frame (or lacks one of the three
    references) issues no GPU call at all, keeps the image in the texture
    and leaves the canvas at its size, whether or not it passed the rate
    check and however many callbacks were pending. *)
Theorem no_frame_no_gpu_work (s : Loop.t * Host.t) (k : Tick) :
  frameAvailable (fst s) (snd k) = false ->
  glCalls (snd (tick s k)) = glCalls (snd s)
  /\ textureImage (snd (tick s k)) = textureImage (snd s)
  /\ canvasWidth (snd (tick s k)) = canvasWidth (snd s)
  /\ canvasHeight (snd (tick s k)) = canvasHeight (snd s).
Proof.
  intros Hav. rewrite tick_callbacks.
  apply (callbacks_no_frame (fst k) (snd k) (rafPending (snd s))
           (fst s, snd (takePending (snd s)))).
  exact Hav.
Qed.

Lemma no_frame_no_gpu_work_witness :
  glCalls (snd (tick startedLoop (40, partialFrame 1)))
  = glCalls (snd startedLoop).
Proof.
  apply (no_frame_no_gpu_work startedLoop (40, partialFrame 1)).
  reflexivity.
Defined.

(** X4.  On a running loop, a tick that passes the rate check and finds a fully
    decoded frame does exactly this, in this order: the canvas takes the
    video's size, the viewport is set to it, the texture is bound and
    receives the current frame, the three uniforms are set, and one draw is
    issued; the clock is set to the tick's timestamp. *)
Theorem accepted_tick_draws_frame (s : Loop.t * Host.t) (k : Tick) :
  scheduled s ->
  frameAvailable (fst s) (snd k) = true ->
  frameInterval <= fst k - lastFrameTime (fst s) ->
  glCalls (snd (tick s k))
  = [DrawArrays 0 4;
     Uniform1f (thresholdLocation (context (fst s))) (3 / 10);
     Uniform3f (keyColorLocation (context (fst s)))
               (3 / 255) (255 / 255) (156 / 255);
     Uniform1i (imageLocation (context (fst s))) 0;
     TexImage2D (currentFrame (snd k));
     BindTexture (texture (context (fst s)));
     Viewport 0 0 (videoWidth (snd k)) (videoHeight (snd k))]
    ++ glCalls (snd s)
  /\ textureImage (snd (tick s k)) = Some (currentFrame (snd k))
  /\ canvasWidth (snd (tick s k)) = videoWidth (snd k)
  /\ canvasHeight (snd (tick s k)) = videoHeight (snd k)
  /\ lastFrameTime (fst (tick s k)) = fst k.
Proof.
  intros [id [Hp _]] Hav Hge.
  rewrite tick_callbacks, Hp, callbacks_single.
  destruct s as [l h]. cbn [fst snd] in *.
  rewrite (applyChromaKey_accept (fst k) (snd k) l _ Hge).
  rewrite frameAvailable_setLastFrameTime, Hav.
  repeat split.
Qed.

Lemma accepted_tick_draws_frame_witness :
  textureImage (snd (tick startedLoop (40, fullFrame 7))) = Some 7%nat.
Proof.
  apply (accepted_tick_draws_frame startedLoop (40, fullFrame 7)).
  - exact startedLoop_scheduled.
  - reflexivity.
  - vm_compute. discriminate.
Defined.

(** *** The pending callback *)

Lemma tick_one_callback (s : Loop.t * Host.t) (k : Tick) (id : nat) :
  rafPending (snd s) = [id] ->
  rafNext (snd s) = S id ->
  rafPending (snd (tick s k)) = [S id]
  /\ rafNext (snd (tick s k)) = S (S id)
  /\ animationFrameId (fst (tick s k)) = Some (S id).
Proof.
  intros Hp Hn. rewrite tick_callbacks, Hp, callbacks_single.
  destruct s as [l h]. cbn [fst snd] in *.
  unfold applyChromaKey.
  destruct (Qlt_le_dec (fst k - lastFrameTime l) frameInterval).
  - simpl. rewrite Hn. repeat split.
  - destruct (frameAvailable (setLastFrameTime (fst k) l) (snd k));
      simpl; rewrite Hn; repeat split.
Qed.

Lemma run_one_callback (ks : list Tick) :
  forall (s : Loop.t * Host.t) (id : nat),
    rafPending (snd s) = [id] ->
    rafNext (snd s) = S id ->
    rafPending (snd (run s ks)) = [(id + List.length ks)%nat]
    /\ rafNext (snd (run s ks)) = S (id + List.length ks)
    /\ (ks <> [] ->
        animationFrameId (fst (run s ks)) = Some (id + List.length ks)%nat).
Proof.
  induction ks as [| k ks IH]; intros s id Hp Hn.
  - simpl. rewrite Nat.add_0_r. repeat split; try assumption. congruence.
  - destruct (tick_one_callback s k id Hp Hn) as (Hp' & Hn' & Ha').
    destruct (IH (tick s k) (S id) Hp' Hn') as (Hp2 & Hn2 & Ha2).
    simpl run. simpl List.length.
    rewrite Nat.add_succ_r. simpl in Hp2, Hn2, Ha2.
    split; [exact Hp2 |]. split; [exact Hn2 |].
    intros _. destruct ks as [| k' ks'].
    + simpl. simpl in Ha'. rewrite Nat.add_0_r. exact Ha'.
    + apply Ha2. discriminate.
Qed.

(** X5.  The loop keeps itself going without piling callbacks up: started on a
    scheduler with nothing pending, after any number of ticks exactly one
    callback is pending, it is the one whose handle the closure holds, and
    each tick has requested exactly one. *)
Theorem loop_keeps_one_callback (hv hc hg : bool) (ctx : WebGLContext)
        (v : VideoElement) (h : Host.t) (ks : list Tick) :
  rafPending h = [] ->
  let s := run (start hv hc hg ctx v h) ks in
  rafPending (snd s) = [(rafNext h + List.length ks)%nat]
  /\ animationFrameId (fst s) = Some (rafNext h + List.length ks)%nat
  /\ rafNext (snd s) = S (rafNext h + List.length ks).
Proof.
  intros Hh s.
  assert (Hs : rafPending (snd (start hv hc hg ctx v h)) = [rafNext h]
               /\ rafNext (snd (start hv hc hg ctx v h)) = S (rafNext h)
               /\ animationFrameId (fst (start hv hc hg ctx v h))
                  = Some (rafNext h)).
  { rewrite ViewFacts.start_reschedules. simpl. rewrite Hh. repeat split. }
  destruct Hs as (Hp & Hn & Ha).
  destruct (run_one_callback ks _ _ Hp Hn) as (Hp' & Hn' & Ha').
  fold s in Hp', Hn', Ha'.
  split; [exact Hp' |]. split; [| exact Hn'].
  destruct ks as [| k ks'].
  - unfold s. simpl. rewrite Nat.add_0_r. exact Ha.
  - apply Ha'. discriminate.
Qed.

Lemma loop_keeps_one_callback_witness :
  rafPending (snd (run startedLoop [(40, fullFrame 1); (50, fullFrame 2)]))
  = [Nat.add (rafNext scenarioHost) 2%nat].
Proof.
  apply (loop_keeps_one_callback true true true scenarioContext (fullFrame 0)
           scenarioHost [(40, fullFrame 1); (50, fullFrame 2)]).
  reflexivity.
Defined.

End LoopMore.

(* ================================================================== *)
(** ** Further properties of the fragment stage *)
(* ================================================================== *)

Module ShaderMore.
Import Shader.
Import ShaderFacts.
Import Lra.
Local Open Scope R_scope.

Lemma rgb_distance_nonneg (c : vec4 R) (k : vec3 R) : 0 <= rgb_distance c k.
Proof. unfold rgb_distance. apply sqrt_pos. Qed.

Lemma rgb_distance_self (k : vec3 R) (a : R) :
  rgb_distance (Vec4 (vx k) (vy k) (vz k) a) k = 0.
Proof.
  unfold rgb_distance. simpl.
  replace ((vx k - vx k) * (vx k - vx k) + (vy k - vy k) * (vy k - vy k)
           + (vz k - vz k) * (vz k - vz k)) with 0 by lra.
  apply sqrt_0.
Qed.

(** X6.  The sign of the threshold decides the two extreme cases: with a
    threshold that is zero or negative no texel is ever removed, and with a
    positive one a texel of exactly the key colour is removed whatever its
    alpha. *)
Theorem threshold_sign (k : vec3 R) (t : R) :
  (t <= 0 -> forall c, fragment_main k t c = c)
  /\ (0 < t -> forall a,
        fragment_main k t (Vec4 (vx k) (vy k) (vz k) a) = Vec4 0 0 0 0).
Proof.
  split.
  - intros Ht c. apply fragment_main_kept.
    pose proof (rgb_distance_nonneg c k). lra.
  - intros Ht a. apply fragment_main_keyed.
    rewrite rgb_distance_self. exact Ht.
Qed.

(** X7.  Raising the threshold never brings a removed texel back: what comes out
    transparent black at one threshold does so at every larger one. *)
Theorem threshold_monotone (k : vec3 R) (t t' : R) (c : vec4 R) :
  t <= t' ->
  fragment_main k t c = Vec4 0 0 0 0 ->
  fragment_main k t' c = Vec4 0 0 0 0.
Proof.
  intros Hle Hz.
  destruct (Rlt_dec (rgb_distance c k) t) as [Hlt | Hge].
  - apply fragment_main_keyed. lra.
  - rewrite (fragment_main_kept c k t Hge) in Hz.
    destruct (Rlt_dec (rgb_distance c k) t') as [Hlt' | Hge'].
    + apply fragment_main_keyed. exact Hlt'.
    + rewrite (fragment_main_kept c k t' Hge'). exact Hz.
Qed.

Lemma threshold_monotone_witness :
  fragment_main keyColor 1 (Vec4 (3 / 255) (255 / 255) (156 / 255) 1)
  = Vec4 0 0 0 0.
Proof.
  apply (threshold_monotone keyColor threshold 1).
  - unfold threshold. lra.
  - apply fragment_main_keyed.
    pose proof (rgb_distance_self keyColor 1) as Hd.
    change (rgb_distance (Vec4 (3 / 255) (255 / 255) (156 / 255) 1) keyColor
            = 0) in Hd.
    rewrite Hd. unfold threshold. lra.
Defined.

(** X8.  Keying an already keyed image changes nothing, provided the key colour
    is at least the threshold away from black, so that the transparent
    black written for removed texels is not itself removed. *)
Theorem keying_idempotent (k : vec3 R) (t : R) (c : vec4 R) :
  ~ rgb_distance (Vec4 0 0 0 0) k < t ->
  fragment_main k t (fragment_main k t c) = fragment_main k t c.
Proof.
  intros Hblack.
  destruct (Rlt_dec (rgb_distance c k) t) as [Hlt | Hge].
  - rewrite (fragment_main_keyed c k t Hlt).
    apply fragment_main_kept. exact Hblack.
  - rewrite (fragment_main_kept c k t Hge).
    apply fragment_main_kept. exact Hge.
Qed.

Lemma key_far_from_black :
  ~ rgb_distance (Vec4 0 0 0 0) keyColor < threshold.
Proof.
  unfold rgb_distance, keyColor, threshold. simpl. intros Hlt.
  apply sqrt_below_iff in Hlt;
    [destruct Hlt as [_ Hsq]; lra | apply sum_squares_nonneg].
Qed.

Lemma keying_idempotent_witness :
  fragment_main keyColor threshold
    (fragment_main keyColor threshold (Vec4 0 1 0 1))
  = fragment_main keyColor threshold (Vec4 0 1 0 1).
Proof.
  apply (keying_idempotent keyColor threshold (Vec4 0 1 0 1)).
  exact key_far_from_black.
Defined.

End ShaderMore.

(* ================================================================== *)
(** ** Properties of the token display *)
(* ================================================================== *)

Module TokenFacts.
Import JS Token.

Lemma sliceLast_length (n : nat) (s : JSString) :
  List.length (sliceLast n s) = Nat.min n (List.length s).
Proof. unfold sliceLast. rewrite length_skipn. lia. Qed.

Lemma sliceLast_app (a b : JSString) :
  sliceLast (List.length b) (a ++ b) = b.
Proof.
  unfold sliceLast. rewrite length_app.
  replace (List.length a + List.length b - List.length b)%nat
    with (List.length a) by lia.
  rewrite skipn_app, skipn_all, Nat.sub_diag. reflexivity.
Qed.

(** X15.  The displayed token is never longer than eight characters: a token of
    more than four characters is shown as exactly eight, a shorter one is
    shown as it is, unmasked. *)
Theorem getDisplayToken_length (token : JSString) :
  List.length (getDisplayToken token)
  = (if Nat.ltb 4 (List.length token) then 8 else List.length token)%nat
  /\ (List.length (getDisplayToken token) <= 8)%nat
  /\ ((List.length token <= 4)%nat -> getDisplayToken token = token).
Proof.
  unfold getDisplayToken.
  destruct (Nat.ltb 4 (List.length token)) eqn:Hlen.
  - apply Nat.ltb_lt in Hlen.
    rewrite length_app, sliceLast_length.
    change (List.length (lit "****")) with 4%nat.
    repeat split; lia.
  - apply Nat.ltb_ge in Hlen. repeat split; lia.
Qed.

(** X16.  Of a token longer than four characters only the last four are shown,
    after four stars: the display does not depend on anything before
    them. *)
Theorem getDisplayToken_masks (hidden last4 : JSString) :
  List.length last4 = 4%nat ->
  hidden <> [] ->
  getDisplayToken (hidden ++ last4) = lit "****" ++ last4.
Proof.
  intros H4 Hne. unfold getDisplayToken.
  assert (Hlen : Nat.ltb 4 (List.length (hidden ++ last4)) = true).
  { apply Nat.ltb_lt. rewrite length_app, H4.
    destruct hidden; [congruence | simpl; lia]. }
  rewrite Hlen, <- H4, sliceLast_app. reflexivity.
Qed.

Lemma getDisplayToken_masks_witness :
  getDisplayToken (lit "secret" ++ lit "1234") = lit "****" ++ lit "1234".
Proof.
  apply (getDisplayToken_masks (lit "secret") (lit "1234")).
  - reflexivity.
  - discriminate.
Defined.

End TokenFacts.

(* ================================================================== *)
(** ** Properties of [createConversation] and of [App] *)
(* ================================================================== *)

Module ClientFacts.
Import JS Client.

Section WithConversation.

Context {Conversation : Type}.
Variable conversation_url : Conversation -> JSString.

Lemma attempt_success (o : FetchOutcome Conversation) (data : Conversation) :
  attempt o = inl data
  <-> exists r, o = Resolved r /\ ok r = true /\ json r = inl data.
Proof.
  split.
  - destruct o as [reason | r]; simpl; [discriminate |].
    destruct (ok r) eqn:Hok; simpl; [| discriminate].
    destruct (json r) as [d | reason] eqn:Hj; [| discriminate].
    intros Heq. injection Heq as <-. exists r. auto.
  - intros (r & -> & Hok & Hj). simpl. rewrite Hok, Hj. reflexivity.
Qed.

(** X17.  [createConversation] returns a conversation exactly when [fetch]
    resolved with a response that is [ok] and whose body parsed, and then
    logs nothing; in every other case it throws, and the one thing it
    logged is the error it throws.  A response that is not [ok] is turned
    into an error carrying its status without its body being read. *)
Theorem createConversation_result (token : JSString)
        (fetch : Request -> FetchOutcome Conversation) :
  (forall data,
      fst (createConversation token fetch) = inl data
      <-> exists r, fetch (request token) = Resolved r
                    /\ ok r = true /\ json r = inl data)
  /\ (forall data,
        fst (createConversation token fetch) = inl data ->
        snd (createConversation token fetch) = [])
  /\ (forall e,
        fst (createConversation token fetch) = inr e ->
        snd (createConversation token fetch) = [e])
  /\ (forall r,
        fetch (request token) = Resolved r -> ok r = false ->
        fst (createConversation token fetch)
        = inr (HttpError (status r))).
Proof.
  unfold createConversation, settle.
  split; [| split; [| split]].
  - intros data. rewrite <- attempt_success.
    destruct (attempt (fetch (request token))); simpl;
      split; congruence.
  - intros data.
    destruct (attempt (fetch (request token))); simpl;
      [reflexivity | discriminate].
  - intros e.
    destruct (attempt (fetch (request token))); simpl;
      [discriminate | congruence].
  - intros r Hr Hok. rewrite Hr. simpl. rewrite Hok. reflexivity.
Qed.

(** *** The invariant of [App] *)

Lemma initialApp_invariant (hasDaily : bool) :
  appInvariant conversation_url (initialApp Conversation hasDaily).
Proof.
  unfold appInvariant. simpl.
  repeat split; try congruence; try discriminate; try lia; auto.
Qed.

Lemma appStep_invariant (s : App Conversation) (e : AppEvent Conversation) :
  appInvariant conversation_url s ->
  appInvariant conversation_url (appStep conversation_url s e).
Proof.
  intros Hinv.
  destruct e as [v | | | o | r]; simpl.
  - (* Change *)
    unfold inputDisabled. destruct (isTokenSubmitted s) eqn:Hsub;
      [exact Hinv |].
    destruct Hinv as (Hload & Hconv & Hphase & Hreq0 & Hreqs & Hdaily
                      & Hlen & Hlt & Hcj & Hpj).
    specialize (Hreq0 Hsub).
    unfold appInvariant. simpl. rewrite Hsub, Hreq0 in *.
    intuition (try discriminate; try congruence; auto).
  - (* Submit *)
    unfold submitDisabled. destruct (isTokenSubmitted s) eqn:Hsub;
      [exact Hinv |].
    destruct Hinv as (Hload & Hconv & Hphase & Hreq0 & Hreqs & Hdaily
                      & Hlen & Hlt & Hcj & Hpj).
    unfold appInvariant. simpl.
    intuition (try discriminate; try congruence; auto).
  - (* ClickStart *)
    unfold startShown, startDisabled.
    destruct (isTokenSubmitted s) eqn:Hsub; simpl; [| exact Hinv].
    destruct (conversation s) as [c |] eqn:Hc; simpl; [exact Hinv |].
    destruct (loading s) eqn:Hl; simpl; [exact Hinv |].
    unfold startVideoCall.
    destruct (truthy (token s)) eqn:Htok; simpl;
      [destruct (daily s) eqn:Hd; simpl |].
    + destruct Hinv as (Hload & Hconv & Hphase & Hreq0 & Hreqs & Hdaily
                        & Hlen & Hlt & Hcj & Hpj).
      unfold appInvariant. simpl. rewrite Hc, Hsub, Htok.
      split; [split; [discriminate | reflexivity] |].
      split; [congruence |].
      split; [reflexivity |].
      split; [discriminate |].
      split; [apply Forall_app; split;
              [rewrite Htok in Hreqs; exact Hreqs | repeat constructor] |].
      split; [intros _; reflexivity |].
      split; [rewrite length_app; simpl; lia |].
      split; [intros _; rewrite length_app; simpl; lia |].
      split; [congruence | discriminate].
    + destruct Hinv as (Hload & Hconv & Hphase & Hreq0 & Hreqs & Hdaily
                        & Hlen & Hlt & Hcj & Hpj).
      unfold appInvariant. simpl. rewrite Hc, Hsub, Hl, Htok in *.
      intuition (try discriminate; try congruence; auto).
    + destruct Hinv as (Hload & Hconv & Hphase & Hreq0 & Hreqs & Hdaily
                        & Hlen & Hlt & Hcj & Hpj).
      unfold appInvariant. simpl. rewrite Hc, Hsub, Hl, Htok in *.
      intuition (try discriminate; try congruence; auto).
  - (* FetchSettled *)
    destruct (phase s) eqn:Hp; try exact Hinv.
    destruct Hinv as (Hload & Hconv & Hphase & Hreq0 & Hreqs & Hdaily
                      & Hlen & Hlt & Hcj & Hpj).
    rewrite Hp in *.
    assert (Hsub : isTokenSubmitted s = true)
      by (apply Hphase; discriminate).
    assert (Hnc : conversation s = None).
    { destruct (conversation s) eqn:Hc; [| reflexivity].
      assert (Hx : Some c <> None) by discriminate.
      destruct (Hconv Hx). discriminate. }
    specialize (Hlt eq_refl).
    unfold resumeAfterCreate, settle.
    destruct (attempt o) as [c | err].
    + unfold appInvariant. simpl. rewrite Hnc, Hsub.
      split; [split; [intros _; discriminate | intros _; apply Hload;
                                                discriminate] |].
      split; [congruence |].
      split; [reflexivity |].
      split; [discriminate |].
      split; [exact Hreqs |].
      split; [exact Hdaily |].
      split; [rewrite length_app; simpl; lia |].
      split; [discriminate |].
      split; [discriminate |].
      intros c' Hc'. injection Hc' as <-.
      apply in_or_app. right. left. reflexivity.
    + unfold appInvariant. simpl. rewrite Hnc, Hsub.
      split; [split; [discriminate | congruence] |].
      split; [congruence |].
      split; [reflexivity |].
      split; [discriminate |].
      split; [exact Hreqs |].
      split; [exact Hdaily |].
      split; [lia |].
      split; [discriminate |].
      split; discriminate.
  - (* JoinSettled *)
    destruct (phase s) as [| | c] eqn:Hp; try exact Hinv.
    destruct Hinv as (Hload & Hconv & Hphase & Hreq0 & Hreqs & Hdaily
                      & Hlen & Hlt & Hcj & Hpj).
    rewrite Hp in *.
    assert (Hsub : isTokenSubmitted s = true)
      by (apply Hphase; discriminate).
    assert (Hnc : conversation s = None).
    { destruct (conversation s) eqn:Hc; [| reflexivity].
      assert (Hx : Some c0 <> None) by discriminate.
      destruct (Hconv Hx). discriminate. }
    specialize (Hpj c eq_refl).
    destruct r as [[] | err]; unfold resumeAfterJoin;
      unfold appInvariant; simpl; rewrite ?Hnc, Hsub.
    + split; [split; [discriminate | congruence] |].
      split; [auto |].
      split; [reflexivity |].
      split; [discriminate |].
      split; [exact Hreqs |].
      split; [exact Hdaily |].
      split; [exact Hlen |].
      split; [discriminate |].
      split; [| discriminate].
      intros c' Hc'. injection Hc' as <-. exact Hpj.
    + split; [split; [discriminate | congruence] |].
      split; [congruence |].
      split; [reflexivity |].
      split; [discriminate |].
      split; [exact Hreqs |].
      split; [exact Hdaily |].
      split; [exact Hlen |].
      split; [discriminate |].
      split; discriminate.
Qed.

Lemma appRun_invariant (es : list (AppEvent Conversation)) :
  forall s : App Conversation,
    appInvariant conversation_url s ->
    appInvariant conversation_url (appRun conversation_url s es).
Proof.
  induction es as [| e es IH]; intros s Hi; [exact Hi |].
  simpl. apply IH. apply appStep_invariant. exact Hi.
Qed.

Lemma reachable_appInvariant (hasDaily : bool)
      (es : list (AppEvent Conversation)) :
  appInvariant conversation_url
    (appRun conversation_url (initialApp Conversation hasDaily) es).
Proof. apply appRun_invariant. apply initialApp_invariant. Qed.

(** *** Call attempts *)

Lemma appStep_token (s : App Conversation) (e : AppEvent Conversation) :
  isTokenSubmitted s = true ->
  token (appStep conversation_url s e) = token s
  /\ isTokenSubmitted (appStep conversation_url s e) = true.
Proof.
  intros Hsub. destruct e as [v | | | o | r]; simpl.
  - unfold inputDisabled. rewrite Hsub. auto.
  - unfold submitDisabled. rewrite Hsub. auto.
  - destruct (startShown s && negb (startDisabled s)); [| auto].
    unfold startVideoCall. destruct (truthy (token s) && daily s); auto.
  - destruct (phase s); auto.
    unfold resumeAfterCreate. destruct (settle o) as [[c | err] logged]; auto.
  - destruct (phase s); auto.
    unfold resumeAfterJoin. destruct r; auto.
Qed.

(** X18.  Once the token is submitted it can no longer change: whatever events
    follow, the state holds the submitted token and the input shows its
    masked form. *)
Theorem token_frozen_after_submit (s : App Conversation)
        (es : list (AppEvent Conversation)) :
  isTokenSubmitted s = true ->
  token (appRun conversation_url s es) = token s
  /\ isTokenSubmitted (appRun conversation_url s es) = true
  /\ inputValue (appRun conversation_url s es)
     = Token.getDisplayToken (token s).
Proof.
  revert s. induction es as [| e es IH]; intros s Hsub.
  - simpl. unfold inputValue. rewrite Hsub. auto.
  - simpl. destruct (appStep_token s e Hsub) as [Ht Hs].
    destruct (IH _ Hs) as (Ht' & Hs' & Hv').
    rewrite Ht in Ht', Hv'. auto.
Qed.

(** X19.  While a call attempt is in flight, and only then, [loading] is set and
    the start button does nothing, so attempts never overlap; every API
    request made so far carries the token held in the state, which is not
    empty; none was made before the token was submitted or without a call
    object; and [DailyCall.join] was called at most once per request, fewer
    times while a request is unanswered. *)
Theorem one_attempt_at_a_time (hasDaily : bool)
        (es : list (AppEvent Conversation)) :
  let s := appRun conversation_url (initialApp Conversation hasDaily) es in
  (loading s = true <-> phase s <> Idle)
  /\ (loading s = true -> appStep conversation_url s ClickStart = s)
  /\ Forall (fun r => r = request (token s) /\ truthy (token s) = true)
            (requests s)
  /\ (requests s <> [] -> isTokenSubmitted s = true /\ daily s = true)
  /\ (List.length (joins s) <= List.length (requests s))%nat
  /\ (phase s = AwaitingCreate ->
      (List.length (joins s) < List.length (requests s))%nat).
Proof.
  intros s.
  destruct (reachable_appInvariant hasDaily es)
    as (Hload & Hconv & Hphase & Hreq0 & Hreqs & Hdaily & Hlen & Hlt & _).
  fold s in Hload, Hconv, Hphase, Hreq0, Hreqs, Hdaily, Hlen, Hlt.
  split; [exact Hload |].
  split.
  { intros Hl. simpl. unfold startDisabled. rewrite Hl, orb_true_r.
    rewrite andb_false_r. reflexivity. }
  split; [exact Hreqs |].
  split.
  { intros Hne. split; [| apply Hdaily; exact Hne].
    destruct (isTokenSubmitted s) eqn:Hsub; [reflexivity |].
    rewrite (Hreq0 eq_refl) in Hne. congruence. }
  split; [exact Hlen | exact Hlt].
Qed.

(** X20.  An established conversation is final: in a state that holds one, no
    event changes anything, the call is shown and the start button is gone;
    and that conversation is one whose url was given to [DailyCall.join]
    after an API request with the submitted token. *)
Theorem conversation_is_final (hasDaily : bool)
        (es : list (AppEvent Conversation)) (c : Conversation) :
  let s := appRun conversation_url (initialApp Conversation hasDaily) es in
  conversation s = Some c ->
  (forall e, appStep conversation_url s e = s)
  /\ callShown s = true
  /\ startShown s = false
  /\ In (conversation_url c) (joins s)
  /\ requests s <> []
  /\ loading s = false.
Proof.
  intros s Hc.
  destruct (reachable_appInvariant hasDaily es)
    as (Hload & Hconv & _ & _ & _ & _ & Hlen & _ & Hcj & _).
  fold s in Hload, Hconv, Hlen, Hcj.
  assert (Hne : conversation s <> None) by congruence.
  destruct (Hconv Hne) as [Hidle Hsub].
  specialize (Hcj c Hc).
  split.
  { intros e. destruct e as [v | | | o | r]; simpl.
    - unfold inputDisabled. rewrite Hsub. reflexivity.
    - unfold submitDisabled. rewrite Hsub. reflexivity.
    - unfold startShown. rewrite Hc, andb_false_r. reflexivity.
    - rewrite Hidle. reflexivity.
    - rewrite Hidle. reflexivity. }
  split; [unfold callShown; rewrite Hc; reflexivity |].
  split; [unfold startShown; rewrite Hc; apply andb_false_r |].
  split; [exact Hcj |].
  split.
  { intros Hr. rewrite Hr in Hlen. simpl in Hlen.
    destruct (joins s); [contradiction | simpl in Hlen; lia]. }
  destruct (loading s) eqn:Hl; [| reflexivity].
  exfalso. apply (proj1 Hload); [reflexivity | exact Hidle].
Qed.

(** X21.  A failed attempt leaves the application ready for another one.  When
    the API request fails, [join] is not called, the error is logged twice
    (by [createConversation] and by the handler) and [loading] is reset;
    when the join fails, the error is logged once and [loading] is reset.
    In both cases no conversation is set and the start button is shown and
    enabled again. *)
Theorem failed_attempt_can_be_retried (hasDaily : bool)
        (es : list (AppEvent Conversation)) :
  let s := appRun conversation_url (initialApp Conversation hasDaily) es in
  (phase s = AwaitingCreate ->
   forall o e, attempt o = inr e ->
     let s' := appStep conversation_url s (FetchSettled o) in
     joins s' = joins s
     /\ console s' = console s ++ [ApiError e; JoinFailed e]
     /\ loading s' = false /\ conversation s' = None
     /\ startShown s' = true /\ startDisabled s' = false)
  /\ (forall c, phase s = AwaitingJoin c ->
      forall e,
        let s' := appStep conversation_url s (JoinSettled (inr e)) in
        console s' = console s ++ [JoinFailed e]
        /\ loading s' = false /\ conversation s' = None
        /\ startShown s' = true /\ startDisabled s' = false).
Proof.
  intros s.
  destruct (reachable_appInvariant hasDaily es)
    as (_ & Hconv & Hphase & _).
  fold s in Hconv, Hphase.
  assert (Hbusy : phase s <> Idle ->
                  isTokenSubmitted s = true /\ conversation s = None).
  { intros Hp. split; [apply Hphase; exact Hp |].
    destruct (conversation s) eqn:Hc; [| reflexivity].
    assert (Hx : Some c <> None) by discriminate.
    destruct (Hconv Hx) as [Hi _]. contradiction. }
  split.
  - intros Hp o e Ho.
    destruct Hbusy as [Hsub Hc]; [rewrite Hp; discriminate |].
    simpl. rewrite Hp. unfold resumeAfterCreate, settle. rewrite Ho.
    unfold startShown, startDisabled. simpl. rewrite Hsub, Hc.
    repeat split.
  - intros c Hp e.
    destruct Hbusy as [Hsub Hc]; [rewrite Hp; discriminate |].
    simpl. rewrite Hp. unfold resumeAfterJoin.
    unfold startShown, startDisabled. simpl. rewrite Hsub, Hc.
    repeat split.
Qed.

End WithConversation.

Lemma token_frozen_after_submit_witness :
  token (appRun (fun c => c) sampleAwaiting
                [Change (lit "other"); Submit; ClickStart])
  = token sampleAwaiting.
Proof.
  apply (token_frozen_after_submit (fun c : JSString => c) sampleAwaiting).
  reflexivity.
Defined.

Lemma conversation_is_final_witness :
  callShown sampleApp = true /\ startShown sampleApp = false.
Proof.
  destruct (conversation_is_final (fun c : JSString => c) true sampleEvents
              (lit "https://c/1")) as (_ & Hc & Hs & _).
  - reflexivity.
  - split; [exact Hc | exact Hs].
Defined.

End ClientFacts.

(* ================================================================== *)
(** ** Properties of the chat and of the recording download *)
(* ================================================================== *)

Module ChatFacts.
Import JS Chat.

Lemma step_messages (cid : JSString) (hasDaily : bool) (s : t) (e : Event) :
  messages (step cid hasDaily s e) = messages s ++ utterances [e].
Proof.
  destruct e as [[d |] | v | |]; simpl; try (rewrite app_nil_r; reflexivity).
  - destruct (isUtterance (event_type d)); simpl;
      [reflexivity | rewrite app_nil_r; reflexivity].
  - unfold handleSendMessage, send.
    destruct (negb (truthy (userMessage s))); simpl;
      rewrite app_nil_r; reflexivity.
  - unfold handleEchoMessage, send.
    destruct (negb (truthy (userMessage s))); simpl;
      rewrite app_nil_r; reflexivity.
Qed.

Lemma utterances_cons (e : Event) (es : list Event) :
  utterances (e :: es) = utterances [e] ++ utterances es.
Proof.
  destruct e as [[d |] | v | |]; simpl; try reflexivity.
  destruct (isUtterance (event_type d)); reflexivity.
Qed.

(** X22.  The transcript is append-only and holds exactly the utterances
    received, in the order of their arrival: events of another type,
    events without data, typing and sending never alter it. *)
Theorem transcript_is_utterances (cid : JSString) (hasDaily : bool)
        (s : t) (es : list Event) :
  messages (run cid hasDaily s es) = messages s ++ utterances es.
Proof.
  revert s. induction es as [| e es IH]; intros s.
  - simpl. rewrite app_nil_r. reflexivity.
  - simpl run. rewrite IH, step_messages, (utterances_cons e es).
    rewrite app_assoc. reflexivity.
Qed.

(** X23.  Sending clears the draft, so a second click on either button right
    after a first one does nothing: one message goes out, not two.  With
    an empty draft nothing is sent, and without a call object the draft is
    cleared although nothing was sent. *)
Theorem send_once (k k' : MessageKind) (cid : JSString) (hasDaily : bool)
        (s : t) :
  send k' cid hasDaily (send k cid hasDaily s) = send k cid hasDaily s
  /\ (userMessage s = [] -> send k cid hasDaily s = s)
  /\ (userMessage s <> [] ->
      userMessage (send k cid hasDaily s) = []
      /\ sent (send k cid hasDaily s)
         = if hasDaily
           then sent s ++ [mkAppMessage k cid (userMessage s)]
           else sent s).
Proof.
  unfold send.
  destruct (userMessage s) as [| c m] eqn:Hm; simpl.
  - rewrite Hm. simpl. repeat split; congruence.
  - repeat split; congruence.
Qed.

Lemma sent_step (cid : JSString) (hasDaily : bool) (s : t) (e : Event) :
  Forall (fun m => conversation_id m = cid /\ text m <> []) (sent s) ->
  Forall (fun m => conversation_id m = cid /\ text m <> [])
         (sent (step cid hasDaily s e)).
Proof.
  intros Hs. destruct e as [[d |] | v | |]; simpl; try exact Hs.
  - destruct (isUtterance (event_type d)); exact Hs.
  - unfold handleSendMessage, send.
    destruct (userMessage s) as [| c m] eqn:Hm; simpl; [exact Hs |].
    destruct hasDaily; [| exact Hs].
    apply Forall_app. split; [exact Hs |].
    constructor; [| constructor]. simpl. split; [reflexivity | discriminate].
  - unfold handleEchoMessage, send.
    destruct (userMessage s) as [| c m] eqn:Hm; simpl; [exact Hs |].
    destruct hasDaily; [| exact Hs].
    apply Forall_app. split; [exact Hs |].
    constructor; [| constructor]. simpl. split; [reflexivity | discriminate].
Qed.

(** X24.  Whatever the user and the call do, every message sent carries the
    conversation's id and a text that is not empty, and without a call
    object nothing is ever sent. *)
Theorem sent_messages_wellformed (cid : JSString) (hasDaily : bool)
        (es : list Event) :
  Forall (fun m => conversation_id m = cid /\ text m <> [])
         (sent (run cid hasDaily initial es))
  /\ (hasDaily = false -> sent (run cid hasDaily initial es) = []).
Proof.
  split.
  - assert (H : forall s,
               Forall (fun m => conversation_id m = cid /\ text m <> [])
                      (sent s) ->
               Forall (fun m => conversation_id m = cid /\ text m <> [])
                      (sent (run cid hasDaily s es))).
    { induction es as [| e es IH]; intros s Hs; [exact Hs |].
      simpl. apply IH. apply sent_step. exact Hs. }
    apply H. constructor.
  - intros ->.
    assert (H : forall s, sent s = [] -> sent (run cid false s es) = []).
    { induction es as [| e es IH]; intros s Hs; [exact Hs |].
      simpl. apply IH.
      destruct e as [[d |] | v | |]; simpl; try exact Hs.
      - destruct (isUtterance (event_type d)); exact Hs.
      - unfold handleSendMessage, send.
        destruct (negb (truthy (userMessage s))); exact Hs.
      - unfold handleEchoMessage, send.
        destruct (negb (truthy (userMessage s))); exact Hs. }
    apply H. reflexivity.
Qed.

End ChatFacts.

Module DownloadFacts.
Import JS Download.

Lemma split_no_separator (sep : ascii) (s : JSString) :
  ~ In sep s -> split sep s = [s].
Proof.
  induction s as [| c s IH]; intros Hn; [reflexivity |].
  simpl. destruct (Ascii.eqb c sep) eqn:Hc.
  - apply Ascii.eqb_eq in Hc. exfalso. apply Hn. left. exact Hc.
  - rewrite IH; [reflexivity |]. intros Hin. apply Hn. right. exact Hin.
Qed.

Lemma split_at_separator (sep : ascii) (a b : JSString) :
  ~ In sep a -> split sep (a ++ sep :: b) = a :: split sep b.
Proof.
  induction a as [| c a IH]; intros Hn.
  - simpl. rewrite Ascii.eqb_refl. reflexivity.
  - simpl. destruct (Ascii.eqb c sep) eqn:Hc.
    + apply Ascii.eqb_eq in Hc. exfalso. apply Hn. left. exact Hc.
    + rewrite IH; [reflexivity |]. intros Hin. apply Hn. right. exact Hin.
Qed.

Lemma split_head (sep : ascii) (s : JSString) :
  exists p ps, split sep s = p :: ps.
Proof.
  destruct s as [| c s]; simpl; [eauto |].
  destruct (Ascii.eqb c sep); [eauto |].
  destruct (split sep s); eauto.
Qed.

(** X25.  The extension of the downloaded file is what stands between the first
    and the second slash of the blob's type: the subtype of a type such as
    [major/minor], cut at a further slash if there is one.  A type without
    a slash gives no extension, and the file name then ends in
    ["undefined"]. *)
Theorem extension_of_type (now major minor : JSString) :
  ~ In "/"%char major ->
  ~ In "/"%char minor ->
  extension (major ++ "/"%char :: minor) = Some minor
  /\ (forall rest,
        extension (major ++ "/"%char :: minor ++ "/"%char :: rest)
        = Some minor)
  /\ extension major = None
  /\ fileName now (major ++ "/"%char :: minor)
     = now ++ lit "test-video." ++ minor
  /\ fileName now major = now ++ lit "test-video.undefined".
Proof.
  intros Hmajor Hminor. unfold fileName, extension.
  rewrite (split_at_separator _ major minor Hmajor).
  rewrite (split_no_separator _ minor Hminor).
  rewrite (split_no_separator _ major Hmajor).
  split; [reflexivity |].
  split.
  { intros rest.
    rewrite (split_at_separator _ major _ Hmajor).
    rewrite (split_at_separator _ minor rest Hminor). reflexivity. }
  split; [reflexivity |].
  split; reflexivity.
Qed.

Lemma extension_of_type_witness :
  extension (lit "video" ++ "/"%char :: lit "webm") = Some (lit "webm").
Proof.
  apply (extension_of_type [] (lit "video") (lit "webm")).
  - vm_compute. intuition discriminate.
  - vm_compute. intuition discriminate.
Defined.

End DownloadFacts.

(* ================================================================== *)
(** ** Further properties of the [Video] component *)
(* ================================================================== *)

Module ViewMore.
Import Host View Coherence.
Import LoopFacts ViewFacts.

(** *** What the pieces do to the counts *)

Lemma initWebGL_result (h : Host.t) :
  Loop.program (fst (Loop.initWebGL h)) <> None
  /\ Loop.texture (fst (Loop.initWebGL h)) <> None
  /\ creations (snd (Loop.initWebGL h)) = S (creations h)
  /\ released h (snd (Loop.initWebGL h)) 0.
Proof.
  unfold released. simpl.
  repeat split; try discriminate; unfold disposals, textureDisposals,
    countCalls; simpl; lia.
Qed.

Lemma start_result (hv hc hg : bool) (ctx : Loop.WebGLContext)
      (v : VideoElement) (h : Host.t) :
  Loop.context (fst (Loop.start hv hc hg ctx v h)) = ctx
  /\ Loop.gl (fst (Loop.start hv hc hg ctx v h)) = hg
  /\ creations (snd (Loop.start hv hc hg ctx v h)) = creations h
  /\ disposals (snd (Loop.start hv hc hg ctx v h)) = disposals h
  /\ textureDisposals (snd (Loop.start hv hc hg ctx v h))
     = textureDisposals h.
Proof. rewrite start_reschedules. repeat split. Qed.

Lemma applyChromaKey_counts (now : Q) (v : VideoElement)
      (s : Loop.t * Host.t) :
  creations (snd (Loop.applyChromaKey now v s)) = creations (snd s)
  /\ disposals (snd (Loop.applyChromaKey now v s)) = disposals (snd s)
  /\ textureDisposals (snd (Loop.applyChromaKey now v s))
     = textureDisposals (snd s).
Proof.
  destruct s as [l h]. unfold Loop.applyChromaKey.
  destruct (Qlt_le_dec (now - Loop.lastFrameTime l) Loop.frameInterval).
  - repeat split.
  - destruct (Loop.frameAvailable (Loop.setLastFrameTime now l) v);
      repeat split.
Qed.

Lemma callbacks_counts (now : Q) (v : VideoElement) (ids : list nat) :
  forall s : Loop.t * Host.t,
    creations (snd (Loop.callbacks now v ids s)) = creations (snd s)
    /\ disposals (snd (Loop.callbacks now v ids s)) = disposals (snd s)
    /\ textureDisposals (snd (Loop.callbacks now v ids s))
       = textureDisposals (snd s).
Proof.
  induction ids as [| id ids IH]; intros s; [repeat split |].
  simpl. destruct (applyChromaKey_counts now v s) as (A & B & C).
  destruct (IH (Loop.applyChromaKey now v s)) as (A' & B' & C').
  repeat split; congruence.
Qed.

Lemma animationFrame_counts (now : Q) (v : VideoElement)
      (s : Loop.t * Host.t) :
  creations (snd (Loop.animationFrame now v s)) = creations (snd s)
  /\ disposals (snd (Loop.animationFrame now v s)) = disposals (snd s)
  /\ textureDisposals (snd (Loop.animationFrame now v s))
     = textureDisposals (snd s).
Proof.
  apply (callbacks_counts now v (rafPending (snd s))
           (fst s, snd (takePending (snd s)))).
Qed.

Lemma cleanup_counts (l : Loop.t) (h : Host.t) :
  Loop.gl l = true ->
  Loop.program (Loop.context l) <> None ->
  Loop.texture (Loop.context l) <> None ->
  creations (snd (Loop.cleanup (l, h))) = creations h
  /\ disposals (snd (Loop.cleanup (l, h))) = S (disposals h)
  /\ textureDisposals (snd (Loop.cleanup (l, h))) = S (textureDisposals h).
Proof.
  intros Hg Hp Hx. unfold Loop.cleanup. rewrite Hg.
  destruct (Loop.program (Loop.context l)); [| congruence].
  destruct (Loop.texture (Loop.context l)); [| congruence].
  destruct (Loop.animationFrameId l); repeat split.
Qed.

Lemma sameContext_refl (x : option Loop.WebGLContext) :
  sameContext x x = true.
Proof.
  destruct x as [ctx |]; [| reflexivity]. simpl.
  destruct (Loop.program ctx); [apply Nat.eqb_refl | reflexivity].
Qed.

Lemma sameContext_none (x : option Loop.WebGLContext) :
  sameContext x None = true -> x = None.
Proof. destruct x; [discriminate | reflexivity]. Qed.

Lemma sameCanvas_refl (x : option Canvas) : sameCanvas x x = true.
Proof. destruct x as [c |]; [apply eqb_reflx | reflexivity]. Qed.

(** *** A render settles the state *)

Lemma released_zero (h0 h h' : Host.t) (n : nat) :
  released h0 h n ->
  disposals h' = disposals h ->
  textureDisposals h' = textureDisposals h ->
  released h0 h' n.
Proof. unfold released. intros [A B] C D. split; congruence. Qed.

Lemma render_unchanged (v : VideoElement) (s : t) :
  mounted s = true ->
  memoDeps s = canvasRef s ->
  fst (effectDeps s) = isVideoReady s ->
  sameContext (snd (effectDeps s)) (webGLContext s) = true ->
  render v s = s.
Proof.
  intros Hm Hd He Hc. unfold render, useMemoContext, sameDeps.
  rewrite Hm, Hd, sameCanvas_refl. simpl.
  rewrite He, eqb_reflx, Hc. simpl.
  destruct s. simpl in *. subst. reflexivity.
Qed.

Ltac fields :=
  cbn [mounted canvasRef videoRef glRef isVideoReady memoDeps webGLContext
       canplayListener effectDeps loop host fst snd hasContext].

Lemma render_same (v : VideoElement) (s : t)
      (ctx : option Loop.WebGLContext) (g : bool) (h : Host.t) :
  mounted s = true ->
  useMemoContext s = (ctx, g, h) ->
  sameDeps s ctx = true ->
  render v s
  = mk (mounted s) (canvasRef s) (videoRef s) g (isVideoReady s)
       (canvasRef s) ctx (canplayListener s) (effectDeps s) (loop s) h.
Proof.
  intros Hm Hu Hd. unfold render. rewrite Hm, Hu. cbv beta iota.
  cbn [negb]. rewrite Hd. reflexivity.
Qed.

Lemma render_changed (v : VideoElement) (s : t)
      (ctx : option Loop.WebGLContext) (g : bool) (h : Host.t) :
  mounted s = true ->
  useMemoContext s = (ctx, g, h) ->
  sameDeps s ctx = false ->
  render v s
  = mk (mounted s) (canvasRef s) (videoRef s) g (isVideoReady s)
       (canvasRef s) ctx (canplayListener s) (isVideoReady s, ctx)
       (fst (runEffect (isVideoReady s) ctx s g v h))
       (snd (runEffect (isVideoReady s) ctx s g v h)).
Proof.
  intros Hm Hu Hd. unfold render. rewrite Hm, Hu. cbv beta iota.
  cbn [negb]. rewrite Hd.
  destruct (runEffect (isVideoReady s) ctx s g v h). reflexivity.
Qed.

Lemma useMemoContext_fresh (s : t) :
  memoDeps s = canvasRef s ->
  useMemoContext s = (webGLContext s, glRef s, host s).
Proof.
  intros Hd. unfold useMemoContext. rewrite Hd, sameCanvas_refl.
  reflexivity.
Qed.

Lemma useMemoContext_stale (c : Canvas) (s : t) :
  memoDeps s = None -> canvasRef s = Some c ->
  useMemoContext s
  = if supportsWebGL c
    then (Some (fst (Loop.initWebGL (host s))), true,
          snd (Loop.initWebGL (host s)))
    else (None, glRef s, host s).
Proof.
  intros Hd Hc. unfold useMemoContext, acquire. rewrite Hd, Hc.
  cbn [sameCanvas]. destruct (supportsWebGL c); [| reflexivity].
  destruct (Loop.initWebGL (host s)). reflexivity.
Qed.

Lemma runEffect_start (c : Canvas) (s : t) (ctx : Loop.WebGLContext)
      (g : bool) (v : VideoElement) (h : Host.t) :
  loop s = None -> canvasRef s = Some c ->
  runEffect true (Some ctx) s g v h
  = (Some (fst (Loop.start (videoRef s) true g ctx v h)),
     snd (Loop.start (videoRef s) true g ctx v h)).
Proof.
  intros Hl Hc. unfold runEffect. rewrite Hl, Hc.
  destruct (Loop.start (videoRef s) true g ctx v h). reflexivity.
Qed.

Lemma render_settled (c : Canvas) (h0 : Host.t) (v : VideoElement) (s : t) :
  settled c h0 s -> mounted s = true -> coherent c h0 (render v s).
Proof.
  intros Hs Hm.
  pose proof Hs as [Hcan Hmn Hms Hsync Hready Hmemo Hls Hln Hlis].
  specialize (Hcan Hm).
  assert (Hnoloop : fst (effectDeps s) = false -> loop s = None).
  { intros Hf. destruct (loop s) as [l |] eqn:Hl; [| reflexivity].
    destruct (Hls l eq_refl) as (_ & Hx & _). congruence. }
  assert (Hquiet : loop s = None -> released h0 (host s) 0).
  { intros Hl. destruct (Hln Hl) as [_ Hrel]. rewrite Hm in Hrel.
    exact Hrel. }
  destruct (memoDeps s) as [c' |] eqn:Hmd.
  - (* the memo is up to date *)
    destruct Hms as [Hc' Hsup]; [discriminate |].
    injection Hc' as ->.
    assert (Hfresh : memoDeps s = canvasRef s) by congruence.
    destruct (Bool.eqb (fst (effectDeps s)) (isVideoReady s)) eqn:He.
    + apply eqb_prop in He.
      rewrite (render_unchanged v s Hm Hfresh He Hsync).
      split; assumption.
    + assert (Hf : fst (effectDeps s) = false /\ isVideoReady s = true).
      { destruct (fst (effectDeps s)) eqn:Hf.
        - rewrite (Hready eq_refl) in He. discriminate.
        - destruct (isVideoReady s); [auto | discriminate]. }
      destruct Hf as [Hf Hr].
      pose proof (Hnoloop Hf) as Hl. pose proof (Hquiet Hl) as [Rd Rtx].
      rewrite (render_changed v s _ _ _ Hm (useMemoContext_fresh s Hfresh))
        by (unfold sameDeps; rewrite He; reflexivity).
      rewrite Hr, Hcan.
      destruct (webGLContext s) as [ctx |] eqn:Hw.
      * assert (Hu : usable s /\ creations (host s) = S (creations h0)).
        { destruct (supportsWebGL c); [exact Hsup |].
          destruct Hsup as [Hx _]. discriminate. }
        destruct Hu as [(ctx' & Hw' & Hp & Hx & Hg) Hcr].
        rewrite Hw in Hw'. injection Hw' as <-.
        rewrite (runEffect_start c s ctx _ v _ Hl Hcan).
        pose proof (start_result (videoRef s) true (glRef s) ctx v (host s))
          as (Sc & Sg & Scr & Sd & Stx).
        remember (Loop.start (videoRef s) true (glRef s) ctx v (host s))
          as st eqn:Est.
        clear Est.
        split; [| reflexivity].
        constructor; fields.
        -- reflexivity.
        -- discriminate.
        -- intros _. split; [reflexivity |].
           destruct (supportsWebGL c); [| destruct Hsup; discriminate].
           split; [| congruence].
           exists ctx. fields. auto.
        -- apply (sameContext_refl (Some ctx)).
        -- reflexivity.
        -- discriminate.
        -- intros l0 Hl0. injection Hl0 as <-.
           unfold released.
           repeat split; try congruence; lia.
        -- discriminate.
        -- intros Hli. destruct (Hlis Hli). congruence.
      * rewrite (runEffect_guard true None s _ v _ Hl (or_intror eq_refl)).
        cbn [fst snd].
        split; [| reflexivity].
        constructor; fields.
        -- reflexivity.
        -- discriminate.
        -- intros _. split; [reflexivity |].
           destruct (supportsWebGL c); [| exact Hsup].
           destruct Hsup as [(ctx' & Hw' & _) _]. congruence.
        -- reflexivity.
        -- reflexivity.
        -- discriminate.
        -- discriminate.
        -- intros _. split; [auto |]. rewrite Hm. cbn [negb andb].
           unfold released. split; lia.
        -- intros Hli. destruct (Hlis Hli). congruence.
  - (* the memo runs *)
    destruct (Hmn eq_refl) as [Hw Hcr].
    assert (Hf : fst (effectDeps s) = false).
    { destruct (fst (effectDeps s)) eqn:Hf; [| reflexivity].
      exfalso. apply (Hmemo eq_refl). reflexivity. }
    assert (Hsnd : snd (effectDeps s) = None).
    { apply sameContext_none. rewrite <- Hw. exact Hsync. }
    pose proof (Hnoloop Hf) as Hl. pose proof (Hquiet Hl) as [Rd Rtx].
    pose proof (useMemoContext_stale c s Hmd Hcan) as Hmemo'.
    destruct (supportsWebGL c) eqn:Hsup.
    + pose proof (initWebGL_result (host s)) as (Ip & Ix & Icr & [Id Itx]).
      remember (Loop.initWebGL (host s)) as init eqn:Einit.
      clear Einit.
      set (ctx := fst init) in *.
      set (h1 := snd init) in *.
      rewrite (render_changed v s _ _ _ Hm Hmemo')
        by (unfold sameDeps; rewrite Hsnd; apply andb_false_r).
      rewrite Hcan.
      destruct (isVideoReady s) eqn:Hr.
      * rewrite (runEffect_start c s ctx _ v _ Hl Hcan).
        pose proof (start_result (videoRef s) true true ctx v h1)
          as (Sc & Sg & Scr & Sd & Stx).
        remember (Loop.start (videoRef s) true true ctx v h1) as st eqn:Est.
        clear Est.
        split; [| reflexivity].
        constructor; fields.
        -- reflexivity.
        -- discriminate.
        -- intros _. split; [reflexivity |]. rewrite Hsup.
           split; [exists ctx; fields; auto | congruence].
        -- apply (sameContext_refl (Some ctx)).
        -- reflexivity.
        -- discriminate.
        -- intros l0 Hl0. injection Hl0 as <-.
           unfold released.
           repeat split; try congruence; lia.
        -- discriminate.
        -- intros Hli. destruct (Hlis Hli). congruence.
      * rewrite (runEffect_guard false (Some ctx) s _ v _ Hl
                   (or_introl eq_refl)).
        cbn [fst snd].
        split; [| reflexivity].
        constructor; fields.
        -- reflexivity.
        -- discriminate.
        -- intros _. split; [reflexivity |]. rewrite Hsup.
           split; [exists ctx; fields; auto | congruence].
        -- apply (sameContext_refl (Some ctx)).
        -- discriminate.
        -- discriminate.
        -- discriminate.
        -- intros _. split; [auto |]. rewrite Hm. cbn [negb andb].
           unfold released. split; lia.
        -- exact Hlis.
    + destruct (isVideoReady s) eqn:Hr.
      * rewrite (render_changed v s _ _ _ Hm Hmemo')
          by (unfold sameDeps; rewrite Hf, Hr; reflexivity).
        rewrite Hr, Hcan.
        rewrite (runEffect_guard true None s _ v _ Hl (or_intror eq_refl)).
        cbn [fst snd].
        split; [| reflexivity].
        constructor; fields.
        -- reflexivity.
        -- discriminate.
        -- intros _. split; [reflexivity |]. rewrite Hsup. auto.
        -- reflexivity.
        -- reflexivity.
        -- discriminate.
        -- discriminate.
        -- intros _. split; [auto |]. rewrite Hm. cbn [negb andb].
           unfold released. split; lia.
        -- intros Hli. destruct (Hlis Hli). congruence.
      * rewrite (render_same v s _ _ _ Hm Hmemo')
          by (unfold sameDeps; rewrite Hf, Hr, Hsnd; reflexivity).
        rewrite Hr, Hcan.
        split; [| exact Hf].
        constructor; fields.
        -- reflexivity.
        -- discriminate.
        -- intros _. split; [reflexivity |]. rewrite Hsup. auto.
        -- rewrite Hsnd. reflexivity.
        -- intros Hx. congruence.
        -- discriminate.
        -- intros l0 Hl0. congruence.
        -- intros _. split; [auto |]. rewrite Hm. cbn [negb andb].
           unfold released. split; lia.
        -- exact Hlis.
Qed.

(** *** Every reachable state is coherent *)

Lemma mount_coherent (c : Canvas) (hasVideo : bool) (h : Host.t) :
  coherent c h (mount c hasVideo h).
Proof.
  split; [| reflexivity].
  unfold mount. cbn [acquire].
  constructor; fields; try discriminate; try reflexivity; try tauto.
  intros _. split; [intros _; left; reflexivity |].
  cbn [negb andb]. unfold released. split; lia.
Qed.

Lemma setReady_settled (c : Canvas) (h0 : Host.t) (s : t) :
  settled c h0 s -> settled c h0 (removeListener (setIsVideoReady s)).
Proof.
  intros [Hcan Hmn Hms Hsync Hready Hmemo Hls Hln Hlis].
  constructor; unfold removeListener, setIsVideoReady; fields;
    try assumption; try discriminate; try reflexivity.
Qed.

Lemma animationFrame_closure (now : Q) (v : VideoElement) (l : Loop.t)
      (h : Host.t) :
  Loop.context (fst (Loop.animationFrame now v (l, h))) = Loop.context l
  /\ Loop.gl (fst (Loop.animationFrame now v (l, h))) = Loop.gl l.
Proof.
  destruct (tick_sameClosure (l, h) (now, v)) as (_ & _ & Hg & Hc).
  split; [exact Hc | exact Hg].
Qed.

Lemma step_coherent (c : Canvas) (h0 : Host.t) (s : t) (e : Event) :
  coherent c h0 s -> coherent c h0 (step s e).
Proof.
  intros Hco. pose proof Hco as [Hs Heff].
  pose proof Hs as [Hcan Hmn Hms Hsync Hready Hmemo Hls Hln Hlis].
  destruct e as [v | v | now v |]; cbn [step].
  - (* canplay *)
    destruct (canplayListener s) eqn:Hli; [| exact Hco].
    destruct (Hlis eq_refl) as [Hm Hr].
    unfold dispatchCanplay, checkVideoReady.
    destruct (Nat.leb 2 (readyState v)).
    + unfold removeListener at 1, setIsVideoReady at 1. fields.
      rewrite Hr. cbn [Bool.eqb].
      apply render_settled; [apply setReady_settled; exact Hs | exact Hm].
    + rewrite eqb_reflx. exact Hco.
  - (* render *)
    destruct (mounted s) eqn:Hm.
    + apply render_settled; assumption.
    + rewrite (render_unmounted v s Hm). exact Hco.
  - (* animation frame *)
    destruct (loop s) as [l |] eqn:Hl; [| exact Hco].
    destruct (Hls l eq_refl) as (Hm & Hf & Hw & Hg & [Rd Rtx]).
    pose proof (animationFrame_counts now v (l, host s)) as (Ac & Ad & Atx).
    pose proof (animationFrame_closure now v l (host s)) as (Cc & Cg).
    destruct (Loop.animationFrame now v (l, host s)) as [l' h'].
    cbn [fst snd] in Ac, Ad, Atx, Cc, Cg.
    split; [| exact Heff].
    constructor; fields; try assumption.
    + intros Hx. destruct (Hmn Hx). split; congruence.
    + intros Hx. destruct (Hms Hx) as [Hc Hsup]. split; [exact Hc |].
      destruct (supportsWebGL c).
      * destruct Hsup as [Hu Hcr]. split; [exact Hu | congruence].
      * destruct Hsup as [Hu Hcr]. split; [exact Hu | congruence].
    + intros l0 Hl0. injection Hl0 as <-.
      unfold released. repeat split; try congruence; lia.
    + discriminate.
  - (* unmount *)
    destruct (mounted s) eqn:Hm; cbn [negb]; [| exact Hco].
    split; [| exact Heff].
    destruct (loop s) as [l |] eqn:Hl.
    + destruct (Hls l eq_refl) as (_ & Hf & Hw & Hg & [Rd Rtx]).
      assert (Hres : Loop.program (Loop.context l) <> None
                     /\ Loop.texture (Loop.context l) <> None
                     /\ creations (host s) = S (creations h0)).
      { destruct (Hms (Hmemo Hf)) as [_ Hsup].
        destruct (supportsWebGL c).
        - destruct Hsup as [(ctx & Hw' & Hp & Hx & _) Hcr].
          rewrite Hw in Hw'. injection Hw' as <-. auto.
        - destruct Hsup as [Hx _]. congruence. }
      destruct Hres as (Hp & Hx & Hcr).
      pose proof (cleanup_counts l (host s) Hg Hp Hx) as (Cc & Cd & Ctx).
      remember (Loop.cleanup (l, host s)) as cl eqn:Ecl. clear Ecl.
      constructor; fields; try assumption; try discriminate.
      * intros Hn. destruct (Hmemo Hf Hn).
      * intros Hn. destruct (Hms Hn) as [Hc Hsup]. split; [exact Hc |].
        destruct (supportsWebGL c).
        -- destruct Hsup as [Hu _]. split; [exact Hu | congruence].
        -- destruct Hsup as [Hu _]. congruence.
      * intros _. split; [discriminate |].
        rewrite Hf, Hw. cbn [andb negb hasContext webGLContext].
        unfold released. split; lia.
    + destruct (Hln eq_refl) as [Hguard [Rd Rtx]].
      cbn [negb andb] in Rd, Rtx.
      assert (Hz : fst (effectDeps s) && hasContext s = false).
      { unfold hasContext. destruct (Hguard eq_refl) as [-> | ->];
          [reflexivity | apply andb_false_r]. }
      constructor; fields; try assumption; try discriminate.
      intros _. split; [discriminate |].
      cbn [negb andb].
      change (hasContext _) with (hasContext s). rewrite Hz.
      unfold released. split; lia.
Qed.

Lemma reachable_coherent (c : Canvas) (hasVideo : bool) (h : Host.t)
      (es : list Event) :
  coherent c h (runEvents (mount c hasVideo h) es).
Proof.
  assert (H : forall s, coherent c h s -> coherent c h (runEvents s es)).
  { induction es as [| e es IH]; intros s Hs; [exact Hs |].
    simpl. apply IH. apply step_coherent. exact Hs. }
  apply H. apply mount_coherent.
Qed.

(** *** Lifecycle of the loop and of its resources *)

(** X10.  The render loop exists exactly while the view is mounted and the video
    is ready, on a surface that yields a rendering context; on a surface
    that does not, it never exists. *)
Theorem loop_runs_while_ready_and_mounted (c : Canvas) (hasVideo : bool)
        (h : Host.t) (es : list Event) :
  let s := runEvents (mount c hasVideo h) es in
  (loop s <> None ->
   mounted s = true /\ isVideoReady s = true /\ supportsWebGL c = true)
  /\ (supportsWebGL c = true -> mounted s = true -> isVideoReady s = true ->
      loop s <> None).
Proof.
  intros s.
  destruct (reachable_coherent c hasVideo h es) as [Hs Heff].
  fold s in Hs, Heff.
  destruct Hs as [Hcan Hmn Hms Hsync Hready Hmemo Hls Hln Hlis].
  split.
  - intros Hl. destruct (loop s) as [l |] eqn:El; [| congruence].
    destruct (Hls l eq_refl) as (Hm & Hf & Hw & _).
    split; [exact Hm |]. split; [congruence |].
    destruct (Hms (Hmemo Hf)) as [_ Hsup].
    destruct (supportsWebGL c); [reflexivity |].
    destruct Hsup as [Hx _]. congruence.
  - intros Hsup Hm Hr Hl.
    assert (Hf : fst (effectDeps s) = true) by congruence.
    destruct (Hms (Hmemo Hf)) as [_ Hu]. rewrite Hsup in Hu.
    destruct Hu as [(ctx & Hw & _) _].
    destruct (Hln Hl) as [Hguard _].
    destruct (Hguard Hm); congruence.
Qed.


(** X12.  Unmounting is final: once the view is unmounted no event changes
    anything, neither a late "canplay", nor a render, nor a display
    refresh, nor a second unmount. *)
Theorem unmounted_is_inert (c : Canvas) (hasVideo : bool) (h : Host.t)
        (es : list Event) (e : Event) :
  let s := runEvents (mount c hasVideo h) es in
  mounted s = false -> step s e = s.
Proof.
  intros s Hm.
  destruct (reachable_coherent c hasVideo h es) as [Hs _].
  fold s in Hs.
  destruct Hs as [_ _ _ _ _ _ Hls _ Hlis].
  assert (Hli : canplayListener s = false).
  { destruct (canplayListener s); [| reflexivity].
    destruct (Hlis eq_refl). congruence. }
  assert (Hl : loop s = None).
  { destruct (loop s) as [l |] eqn:El; [| reflexivity].
    destruct (Hls l eq_refl). congruence. }
  destruct e as [v | v | now v |]; cbn [step].
  - rewrite Hli. reflexivity.
  - apply render_unmounted. exact Hm.
  - rewrite Hl. reflexivity.
  - rewrite Hm. reflexivity.
Qed.

Lemma unmounted_is_inert_witness :
  step (runEvents (mount (mkCanvas true) true Host.initial) sampleSession)
       (AnimationFrame 120 (Loop.fullFrame 3))
  = runEvents (mount (mkCanvas true) true Host.initial) sampleSession.
Proof.
  apply (unmounted_is_inert (mkCanvas true) true Host.initial sampleSession).
  reflexivity.
Defined.

Lemma render_memo (v : VideoElement) (s : t) :
  mounted s = true -> memoDeps (render v s) = canvasRef (render v s).
Proof.
  intros Hm. unfold render. rewrite Hm. cbn [negb].
  destruct (useMemoContext s) as [[ctx g] h].
  destruct (sameDeps s ctx); [reflexivity |].
  destruct (runEffect (isVideoReady s) ctx s g v h). reflexivity.
Qed.

Lemma coherent_render_idle (c : Canvas) (h0 : Host.t) (v : VideoElement)
      (s : t) :
  coherent c h0 s -> memoDeps s = canvasRef s -> render v s = s.
Proof.
  intros [Hs Heff] Hd.
  destruct (mounted s) eqn:Hm; [| apply render_unmounted; exact Hm].
  apply render_unchanged; try assumption.
  apply (st_ctx_sync c h0 s Hs).
Qed.

(** X13.  Rendering again is harmless: whatever the state, a second render right
    after a first one changes nothing, and while the loop runs no render
    changes anything; WebGL is not initialised again, the loop is neither
    restarted nor disposed of. *)
Theorem render_is_idempotent (c : Canvas) (hasVideo : bool) (h : Host.t)
        (es : list Event) :
  let s := runEvents (mount c hasVideo h) es in
  (forall v v', render v' (render v s) = render v s)
  /\ (loop s <> None -> forall v, render v s = s).
Proof.
  intros s.
  pose proof (reachable_coherent c hasVideo h es) as Hco. fold s in Hco.
  split.
  - intros v v'.
    pose proof (step_coherent c h s (Render v) Hco) as Hco'.
    cbn [step] in Hco'.
    destruct (mounted s) eqn:Hm.
    + apply (coherent_render_idle c h v' _ Hco').
      apply render_memo. exact Hm.
    + rewrite (render_unmounted v s Hm).
      apply render_unmounted. exact Hm.
  - intros Hl v. apply (coherent_render_idle c h v s Hco).
    destruct Hco as [[Hcan _ Hms _ _ Hmemo Hls _ _] _].
    destruct (loop s) as [l |] eqn:El; [| congruence].
    destruct (Hls l eq_refl) as (Hm & Hf & _).
    destruct (Hms (Hmemo Hf)) as [Hd _].
    rewrite Hd, (Hcan Hm). reflexivity.
Qed.

(** X14.  [initWebGL] runs at most once per mount: it has run exactly when the
    component holds a context, and the component holds one only with
    [glRef] set, on a canvas that yields a WebGL rendering context. *)
Theorem webgl_initialised_at_most_once (c : Canvas) (hasVideo : bool)
        (h : Host.t) (es : list Event) :
  let s := runEvents (mount c hasVideo h) es in
  creations (host s)
  = (creations h + if hasContext s then 1 else 0)%nat
  /\ (webGLContext s <> None -> glRef s = true /\ supportsWebGL c = true).
Proof.
  intros s.
  destruct (reachable_coherent c hasVideo h es) as [Hs _].
  fold s in Hs.
  destruct Hs as [_ Hmn Hms _ _ _ _ _ _].
  unfold hasContext.
  destruct (memoDeps s) as [c' |] eqn:Hmd.
  - destruct Hms as [_ Hsup]; [discriminate |].
    destruct (supportsWebGL c).
    + destruct Hsup as [(ctx & Hw & Hp & Hx & Hg) Hcr].
      rewrite Hw. split; [lia |].
      intros _. split; [exact Hg | reflexivity].
    + destruct Hsup as [Hw Hcr]. rewrite Hw.
      split; [lia | intros Hne; contradiction Hne; reflexivity].
  - destruct (Hmn eq_refl) as [Hw Hcr]. rewrite Hw.
    split; [lia | intros Hne; contradiction Hne; reflexivity].
Qed.

End ViewMore.
